(** * simple-vgress: config expansion, page check, screenshot partitioning
      and batch scheduling

    A shallow embedding of [src/utils.ts], [src/worker.ts] and [src/run.ts].
    Pure helpers are Rocq functions.  The page check talks to a browser and to
    the file system: those calls are answered by an environment record and
    leave an event in a trace, and the code runs in a small state-and-exception
    monad whose state survives a throw, as the locals of [checkPage] do. *)

From Stdlib Require Import ZArith List Ascii String Lia Bool.
From stdpp Require Import base list strings pretty.
Import ListNotations.

Open Scope string_scope.
Open Scope list_scope.
Open Scope Z_scope.

(** ** utils.ts *)

Module Utils.

Definition DeviceName := string.

Inductive WaitUntilOption := load | domcontentloaded | networkidle | commit.

(** [interface PageConfig].  [maxScreenshotHeight] is read by worker.ts;
    [None] is the [null] that worker.ts tests for (no limit). *)
Record PageConfig := mkPageConfig {
  fullPage : bool;
  devices : list DeviceName;
  timeoutMs : Z;
  requiredSelectors : list string;
  abortIfFail : bool;
  waitUntil : WaitUntilOption;
  waitFor : list string;
  scrollPage : bool;
  maxScreenshotHeight : option Z
}.

(** [Partial<PageConfig>]: every key may be absent. *)
Record PartialPageConfig := mkPartial {
  o_fullPage : option bool;
  o_devices : option (list DeviceName);
  o_timeoutMs : option Z;
  o_requiredSelectors : option (list string);
  o_abortIfFail : option bool;
  o_waitUntil : option WaitUntilOption;
  o_waitFor : option (list string);
  o_scrollPage : option bool;
  o_maxScreenshotHeight : option (option Z)
}.

(** The object literal [{}]. *)
Definition emptyPartial : PartialPageConfig :=
  mkPartial None None None None None None None None None.

(** [interface Config].  [pages] is a JS object keyed by URL; it is kept as
    the sequence [Object.entries] walks (insertion order).  A page written
    without settings parses to [null], here [None]. *)
Record Config := mkConfig {
  _default : PageConfig;
  pages : list (string * option PartialPageConfig)
}.

Record PageJob := mkPageJob {
  url : string;
  device : DeviceName;
  config : PageConfig
}.

(** [{ ...defaultConfig, ...pageConfig }]: the keys of the second spread
    overwrite those of the first, key by key. *)
Definition mergeConfig (defaultConfig : PageConfig)
    (pageConfig : PartialPageConfig) : PageConfig :=
  {| fullPage := default (fullPage defaultConfig) (o_fullPage pageConfig);
     devices := default (devices defaultConfig) (o_devices pageConfig);
     timeoutMs := default (timeoutMs defaultConfig) (o_timeoutMs pageConfig);
     requiredSelectors :=
       default (requiredSelectors defaultConfig) (o_requiredSelectors pageConfig);
     abortIfFail := default (abortIfFail defaultConfig) (o_abortIfFail pageConfig);
     waitUntil := default (waitUntil defaultConfig) (o_waitUntil pageConfig);
     waitFor := default (waitFor defaultConfig) (o_waitFor pageConfig);
     scrollPage := default (scrollPage defaultConfig) (o_scrollPage pageConfig);
     maxScreenshotHeight :=
       default (maxScreenshotHeight defaultConfig) (o_maxScreenshotHeight pageConfig) |}.

(** [jobs.push(x)] *)
Definition push {A} (l : list A) (x : A) : list A := l ++ [x].

(** [expandPageJobs]: the outer loop walks [Object.entries(config.pages)],
    the inner loop the merged device list; both push onto [jobs]. *)
Definition expandPageJobs (cfg : Config) : list PageJob :=
  fold_left
    (fun jobs entry =>
       let mergedConfig :=
         mergeConfig (_default cfg) (default emptyPartial (snd entry)) in
       fold_left
         (fun jobs device => push jobs (mkPageJob (fst entry) device mergedConfig))
         (devices mergedConfig) jobs)
    (pages cfg) [].

(** *** Field-wise view of a configuration, used to state the merge rule *)

Inductive FieldName :=
| F_fullPage | F_devices | F_timeoutMs | F_requiredSelectors | F_abortIfFail
| F_waitUntil | F_waitFor | F_scrollPage | F_maxScreenshotHeight.

Inductive FieldValue :=
| VBool (b : bool)
| VNumber (z : Z)
| VStrings (l : list string)
| VWaitUntil (w : WaitUntilOption)
| VLimit (m : option Z).

Definition getField (f : FieldName) (c : PageConfig) : FieldValue :=
  match f with
  | F_fullPage => VBool (fullPage c)
  | F_devices => VStrings (devices c)
  | F_timeoutMs => VNumber (timeoutMs c)
  | F_requiredSelectors => VStrings (requiredSelectors c)
  | F_abortIfFail => VBool (abortIfFail c)
  | F_waitUntil => VWaitUntil (waitUntil c)
  | F_waitFor => VStrings (waitFor c)
  | F_scrollPage => VBool (scrollPage c)
  | F_maxScreenshotHeight => VLimit (maxScreenshotHeight c)
  end.

(** The value an override carries for a field, [None] when the key is absent. *)
Definition getOverride (f : FieldName) (o : PartialPageConfig) : option FieldValue :=
  match f with
  | F_fullPage => VBool <$> o_fullPage o
  | F_devices => VStrings <$> o_devices o
  | F_timeoutMs => VNumber <$> o_timeoutMs o
  | F_requiredSelectors => VStrings <$> o_requiredSelectors o
  | F_abortIfFail => VBool <$> o_abortIfFail o
  | F_waitUntil => VWaitUntil <$> o_waitUntil o
  | F_waitFor => VStrings <$> o_waitFor o
  | F_scrollPage => VBool <$> o_scrollPage o
  | F_maxScreenshotHeight => VLimit <$> o_maxScreenshotHeight o
  end.

(** The configuration a page entry resolves to. *)
Definition resolved (cfg : Config) (entry : string * option PartialPageConfig)
  : PageConfig :=
  mergeConfig (_default cfg) (default emptyPartial (snd entry)).

(** The jobs of one page: one per device of its resolved configuration, in
    device-list order. *)
Definition jobsOfPage (cfg : Config) (entry : string * option PartialPageConfig)
  : list PageJob :=
  map (fun d => mkPageJob (fst entry) d (resolved cfg entry))
      (devices (resolved cfg entry)).

Fixpoint sum_nat (l : list nat) : nat :=
  match l with
  | [] => 0%nat
  | n :: l' => (n + sum_nat l')%nat
  end.

End Utils.

Import Utils.

(** ** worker.ts *)

Module Worker.

(** [interface PageResult].  [result_url] and [result_device] are its [url]
    and [device] keys; an absent optional key is [None]. *)
Record PageResult := mkPageResult {
  result_url : string;
  result_device : DeviceName;
  success : bool;
  errors : list string;
  warnings : list string;
  duration : Z;
  screenshot : option string;
  screenshots : option (list string)
}.

(** What a [catch] clause receives: an [Error] with its message, or any other
    thrown value. *)
Inductive Thrown :=
| JsError (message : string)
| NonError.

(** How a call into the browser, the image codec or the file system ends. *)
Inductive Outcome (A : Type) :=
| Returns (a : A)
| Throws (e : Thrown).
Arguments Returns {A} a.
Arguments Throws {A} e.

(** The argument of [browser.newContext]: a literal viewport, or the entry
    [devices[name]] of the Playwright device table. *)
Inductive DeviceOptions :=
| Viewport (width height : Z)
| Descriptor (name : string).

(** What the listeners of a page are called with. *)
Inductive PageEvent :=
| Console (type text : string)
| PageError (message : string)
| Response (status : Z) (response_url : string)
| RequestFailed (request_url : string).

(** The effects of a page check, in the order they happen.  A call that
    throws has no effect and leaves no event. *)
Inductive Event :=
| EvWarn (msg : string)
| EvNewContext (opts : DeviceOptions)
| EvNewPage
| EvGoto (target : string) (w : WaitUntilOption) (timeout : Z)
| EvWaitForSelector (selector : string)
| EvScroll
| EvWaitForTimeout (ms : Z)
| EvQuery (selector : string)
| EvMeasure
| EvScreenshot (path : string) (full : bool)
| EvJimpRead (path : string)
| EvCropWrite (y h : Z) (path : string)
| EvUnlink (path : string)
| EvCloseContext.

(** The browser, the page under test and the platform, as one job meets
    them.  [context.close()] and [fs.unlinkSync] of the file just written are
    taken to succeed; every other call may throw.  [urlToSlug] (built on the
    platform's URL parser) and [formatDuration] (built on floating-point
    [toFixed]) are kept as functions of the environment. *)
Record Env := mkEnv {
  knownDevice : string -> bool;
  newContextR : Outcome unit;
  newPageR : Outcome unit;
  gotoR : Outcome (option Z);
  navigationTime : Z;
  pageEvents : list PageEvent;
  waitForSelectorR : string -> Outcome unit;
  scrollR : Outcome unit;
  waitForTimeoutR : Outcome unit;
  queryR : string -> Outcome bool;
  dimensionsR : Outcome Z;
  screenshotR : string -> Outcome unit;
  now : Z;
  jimpReadR : Outcome unit;
  cropWriteR : Z -> Outcome unit;
  totalDuration : Z;
  urlToSlug : string -> string;
  formatDuration : Z -> string
}.

(** The mutable locals of [checkPage] together with the trace of effects. *)
Record Locals := mkLocals {
  trace : list Event;
  l_errors : list string;
  l_warnings : list string;
  l_screenshot : option string;
  l_screenshots : list string
}.

Definition initialLocals : Locals := mkLocals [] [] [] None [].

(** *** The monad: state that survives a throw *)

Definition M (A : Type) : Type := Locals -> Locals * Outcome A.

Definition ret {A} (a : A) : M A := fun st => (st, Returns a).

Definition bind {A B} (m : M A) (k : A -> M B) : M B :=
  fun st =>
    match m st with
    | (st', Returns a) => k a st'
    | (st', Throws e) => (st', Throws e)
    end.

Notation "'let*' x ':=' m 'in' k" := (bind m (fun x => k))
  (at level 10, x name, m at level 100, k at level 200).
Notation "m ;; k" := (bind m (fun _ => k))
  (at level 100, k at level 200, right associativity).

(** [try { m } catch (error) { h error }] *)
Definition tryCatch {A} (m : M A) (h : Thrown -> M A) : M A :=
  fun st =>
    match m st with
    | (st', Returns a) => (st', Returns a)
    | (st', Throws e) => h e st'
    end.

Definition logEvent (ev : Event) (st : Locals) : Locals :=
  mkLocals (trace st ++ [ev]) (l_errors st) (l_warnings st)
           (l_screenshot st) (l_screenshots st).

(** An external call: its effect is logged when it returns. *)
Definition call {A} (ev : Event) (r : Outcome A) : M A :=
  fun st =>
    match r with
    | Returns a => (logEvent ev st, Returns a)
    | Throws e => (st, Throws e)
    end.

Definition pushError (msg : string) : M unit :=
  fun st =>
    (mkLocals (trace st) (push (l_errors st) msg) (l_warnings st)
              (l_screenshot st) (l_screenshots st), Returns tt).

Definition pushWarning (msg : string) : M unit :=
  fun st =>
    (mkLocals (trace st) (l_errors st) (push (l_warnings st) msg)
              (l_screenshot st) (l_screenshots st), Returns tt).

Definition setScreenshot (s : option string) : M unit :=
  fun st =>
    (mkLocals (trace st) (l_errors st) (l_warnings st) s (l_screenshots st),
     Returns tt).

Definition setScreenshots (l : list string) : M unit :=
  fun st =>
    (mkLocals (trace st) (l_errors st) (l_warnings st) (l_screenshot st) l,
     Returns tt).

Definition when (b : bool) (m : M unit) : M unit := if b then m else ret tt.

(** *** String helpers *)

(** [s.includes(pattern)] *)
Fixpoint includes (pattern s : string) : bool :=
  String.prefix pattern s
  || match s with
     | EmptyString => false
     | String _ s' => includes pattern s'
     end.

(** [patterns.some(pattern => s.includes(pattern))] *)
Definition someIncludes (patterns : list string) (s : string) : bool :=
  existsb (fun pattern => includes pattern s) patterns.

(** [l.join(sep)] *)
Definition join (sep : string) (l : list string) : string := String.concat sep l.

(** [path.join(dir, file)] for a directory without a trailing separator and a
    plain file name. *)
Definition path_join (dir file : string) : string := dir +:+ "/" +:+ file.

(** A template literal's rendering of an integer. *)
Definition showInt (z : Z) : string := pretty z.

Definition lowerAscii (c : ascii) : ascii :=
  let n := nat_of_ascii c in
  if ((65 <=? n) && (n <=? 90))%nat then ascii_of_nat (n + 32) else c.

(** [s.toLowerCase()], on ASCII letters. *)
Fixpoint toLowerCase (s : string) : string :=
  match s with
  | EmptyString => EmptyString
  | String c s' => String (lowerAscii c) (toLowerCase s')
  end.

Definition isSlugChar (c : ascii) : bool :=
  let n := nat_of_ascii c in
  (((97 <=? n) && (n <=? 122)) || ((48 <=? n) && (n <=? 57)))%nat.

(** [s.replace(/[^a-z0-9]+/g, '-')]: [inRun] tells that the previous
    character was already replaced. *)
Fixpoint replaceRuns (inRun : bool) (s : string) : string :=
  match s with
  | EmptyString => EmptyString
  | String c s' =>
      if isSlugChar c then String c (replaceRuns false s')
      else if inRun then replaceRuns true s'
      else String "-"%char (replaceRuns true s')
  end.

Definition deviceToSlug (device : DeviceName) : string :=
  replaceRuns false (toLowerCase device).

(** [Math.ceil(a / b)] on integers with [b > 0]: the division is exact in
    double precision for page-sized operands, so this is the ceiling of the
    rational quotient. *)
Definition ceilDiv (a b : Z) : Z := - ((- a) / b).

(** *** getDeviceOptions *)

(** The double-quote character of the warning text. *)
Definition quote : string := String (ascii_of_nat 34) EmptyString.

Definition desktopViewport : DeviceOptions := Viewport 1280 800.

Definition getDeviceOptions (env : Env) (device : DeviceName) : M DeviceOptions :=
  let d := toLowerCase device in
  if String.eqb d "desktop" then ret desktopViewport
  else if String.eqb d "mobile" then ret (Descriptor "iPhone 13")
  else if String.eqb d "tablet" then ret (Descriptor "iPad Pro")
  else if knownDevice env device then ret (Descriptor device)
  else
    call (EvWarn ("Unknown device " +:+ quote +:+ device +:+ quote
                  +:+ ", falling back to desktop"))
         (Returns tt) ;;
    ret desktopViewport.

(** *** Listeners *)

Definition genericErrorPatterns : list string :=
  [ "Failed to load resource: the server responded with a status of 401";
    "Failed to load resource: the server responded with a status of 403";
    "Content Security Policy";
    "CSP" ].

Definition shouldIgnoreConsoleError (text : string) : bool :=
  someIncludes genericErrorPatterns text.

Definition ignorePatterns : list string :=
  [ "google-analytics.com"; "googletagmanager.com"; "analytics.google.com";
    "doubleclick.net"; "facebook.com"; "facebook.net"; "linkedin.com";
    "twitter.com"; "google.com/ccm"; "ads.linkedin.com"; "recaptcha";
    "csp.withgoogle.com" ].

Definition shouldIgnoreUrl (u : string) : bool := someIncludes ignorePatterns u.

(** The [console] and [pageerror] handlers, run over the events of the page. *)
Definition onConsoleErrors (consoleErrors : list string) (ev : PageEvent)
  : list string :=
  match ev with
  | Console type text =>
      if String.eqb type "error" && negb (shouldIgnoreConsoleError text)
      then push consoleErrors text else consoleErrors
  | PageError message =>
      if negb (shouldIgnoreConsoleError message)
      then push consoleErrors message else consoleErrors
  | _ => consoleErrors
  end.

(** The [response] and [requestfailed] handlers. *)
Definition onNetworkFailures (networkFailures : list string) (ev : PageEvent)
  : list string :=
  match ev with
  | Response status u =>
      if (400 <=? status) && negb (shouldIgnoreUrl u)
      then push networkFailures (showInt status +:+ " " +:+ u)
      else networkFailures
  | RequestFailed u =>
      if negb (shouldIgnoreUrl u)
      then push networkFailures ("Failed: " +:+ u) else networkFailures
  | _ => networkFailures
  end.

(** *** captureMultiPartScreenshots *)

Definition singleName (urlSlug deviceSlug : string) : string :=
  urlSlug +:+ "." +:+ deviceSlug +:+ ".png".

Definition partName (urlSlug deviceSlug : string) (partIndex numParts : Z)
  : string :=
  urlSlug +:+ "." +:+ deviceSlug +:+ ".part" +:+ showInt partIndex
          +:+ "of" +:+ showInt numParts +:+ ".png".

(** The [for (let i = 0; i < numParts; i++)] loop; [remaining] counts the
    iterations still to run, [numParts - i]. *)
Fixpoint splitLoop (env : Env) (urlSlug deviceSlug outputDir : string)
    (pageHeight partHeight numParts : Z)
    (remaining : nat) (i : Z) (screenshots : list string) : M (list string) :=
  match remaining with
  | O => ret screenshots
  | S remaining' =>
      let startY := i * partHeight in
      let actualHeight := Z.min partHeight (pageHeight - startY) in
      let filename := partName urlSlug deviceSlug (i + 1) numParts in
      let screenshotPath := path_join outputDir filename in
      call (EvCropWrite startY actualHeight screenshotPath) (cropWriteR env i) ;;
      splitLoop env urlSlug deviceSlug outputDir pageHeight partHeight numParts
                remaining' (i + 1) (push screenshots filename)
  end.

Definition captureMultiPartScreenshots (env : Env)
    (urlSlug deviceSlug : string) (maxHeight : Z) (outputDir : string)
  : M (list string) :=
  let* pageHeight := call EvMeasure (dimensionsR env) in
  if pageHeight <=? maxHeight then
    let filename := singleName urlSlug deviceSlug in
    let screenshotPath := path_join outputDir filename in
    call (EvScreenshot screenshotPath true) (screenshotR env screenshotPath) ;;
    ret [filename]
  else
    let numParts := ceilDiv pageHeight maxHeight in
    let partHeight := ceilDiv pageHeight numParts in
    let tempFullPath :=
      path_join outputDir ("temp-full-" +:+ showInt (now env) +:+ ".png") in
    call (EvScreenshot tempFullPath true) (screenshotR env tempFullPath) ;;
    call (EvJimpRead tempFullPath) (jimpReadR env) ;;
    let* screenshots :=
      splitLoop env urlSlug deviceSlug outputDir pageHeight partHeight numParts
                (Z.to_nat numParts) 0 [] in
    call (EvUnlink tempFullPath) (Returns tt) ;;
    ret screenshots.

(** *** checkPage *)

(** [`Status ${response?.status() || 'unknown'}`]: a missing response and a
    status of 0 both print as [unknown]. *)
Definition statusError (response : option Z) : string :=
  "Status " +:+ match response with
                | Some status => if status =? 0 then "unknown" else showInt status
                | None => "unknown"
                end.

(** [!response || response.status() !== 200] *)
Definition badStatus (response : option Z) : bool :=
  match response with
  | Some status => negb (status =? 200)
  | None => true
  end.

(** The [waitFor] loop: each selector has its own try/catch. *)
Fixpoint waitForLoop (env : Env) (selectors : list string) : M unit :=
  match selectors with
  | [] => ret tt
  | selector :: rest =>
      tryCatch
        (call (EvWaitForSelector selector) (waitForSelectorR env selector))
        (fun _ =>
           pushWarning ("waitFor selector not visible within 30s: " +:+ selector)) ;;
      waitForLoop env rest
  end.

(** The [requiredSelectors] loop. *)
Fixpoint requiredLoop (env : Env) (selectors : list string) : M unit :=
  match selectors with
  | [] => ret tt
  | selector :: rest =>
      let* element := call (EvQuery selector) (queryR env selector) in
      when (negb element) (pushError ("Missing selector: " +:+ selector)) ;;
      requiredLoop env rest
  end.

(** The block under the comment "Take screenshot(s)". *)
Definition takeScreenshots (env : Env) (url : string) (device : DeviceName)
    (config : PageConfig) (outputDir : string) : M unit :=
  let urlSlug := urlToSlug env url in
  let deviceSlug := deviceToSlug device in
  match fullPage config, maxScreenshotHeight config with
  | true, Some maxHeight =>
      let* shots :=
        captureMultiPartScreenshots env urlSlug deviceSlug maxHeight outputDir in
      setScreenshots shots ;;
      setScreenshot (head shots)
  | _, _ =>
      let filename := singleName urlSlug deviceSlug in
      let screenshotPath := path_join outputDir filename in
      call (EvScreenshot screenshotPath (fullPage config))
           (screenshotR env screenshotPath) ;;
      setScreenshot (Some filename) ;;
      setScreenshots [filename]
  end.

(** The [else] branch of the status test: post-load checks, then capture. *)
Definition postLoad (env : Env) (url : string) (device : DeviceName)
    (config : PageConfig) (outputDir : string) : M unit :=
  waitForLoop env (waitFor config) ;;
  when (scrollPage config) (call EvScroll (scrollR env)) ;;
  call (EvWaitForTimeout 5000) (waitForTimeoutR env) ;;
  let consoleErrors := fold_left onConsoleErrors (pageEvents env) [] in
  let networkFailures := fold_left onNetworkFailures (pageEvents env) [] in
  when (negb (Nat.eqb (length consoleErrors) 0))
       (pushError ("Console errors: " +:+ join "; " consoleErrors)) ;;
  when (negb (Nat.eqb (length networkFailures) 0))
       (pushError ("Network failures: " +:+ join "; " networkFailures)) ;;
  requiredLoop env (requiredSelectors config) ;;
  when (5000 <? navigationTime env)
       (pushWarning ("Slow page: " +:+ formatDuration env (navigationTime env) +:+ "s")) ;;
  takeScreenshots env url device config outputDir.

(** The body of the [try] block. *)
Definition tryBody (env : Env) (url : string) (device : DeviceName)
    (config : PageConfig) (outputDir : string) : M unit :=
  let* contextOptions := getDeviceOptions env device in
  call (EvNewContext contextOptions) (newContextR env) ;;
  call EvNewPage (newPageR env) ;;
  let* response :=
    call (EvGoto url (waitUntil config) (timeoutMs config)) (gotoR env) in
  (if badStatus response then pushError (statusError response)
   else postLoad env url device config outputDir) ;;
  call EvCloseContext (Returns tt).

(** The [catch] clause. *)
Definition catchClause (error : Thrown) : M unit :=
  match error with
  | JsError message =>
      if includes "Timeout" message then pushError "Timeout exceeded"
      else pushError message
  | NonError => pushError "Unknown error"
  end.

(** The locals and the trace when [checkPage] reaches its [return]. *)
Definition checkPageRun (env : Env) (url : string) (device : DeviceName)
    (config : PageConfig) (outputDir : string) : Locals :=
  fst (tryCatch (tryBody env url device config outputDir) catchClause
                initialLocals).

(** The object [checkPage] returns. *)
Definition resultOf (env : Env) (url : string) (device : DeviceName)
    (st : Locals) : PageResult :=
  {| result_url := url;
     result_device := device;
     success := Nat.eqb (length (l_errors st)) 0;
     errors := l_errors st;
     warnings := l_warnings st;
     duration := totalDuration env;
     screenshot := l_screenshot st;
     screenshots :=
       if (1 <? length (l_screenshots st))%nat then Some (l_screenshots st)
       else None |}.

Definition checkPage (env : Env) (url : string) (device : DeviceName)
    (config : PageConfig) (outputDir : string) : PageResult :=
  resultOf env url device (checkPageRun env url device config outputDir).

(** *** Reading a trace *)

(** The paths written by the events, in order. *)
Definition written (evs : list Event) : list string :=
  flat_map (fun ev => match ev with
                      | EvScreenshot path _ => [path]
                      | EvCropWrite _ _ path => [path]
                      | _ => []
                      end) evs.

(** The paths deleted by the events. *)
Definition unlinked (evs : list Event) : list string :=
  flat_map (fun ev => match ev with
                      | EvUnlink path => [path]
                      | _ => []
                      end) evs.

(** The bands cut out of the full raster: start, height, path. *)
Definition crops (evs : list Event) : list (Z * Z * string) :=
  flat_map (fun ev => match ev with
                      | EvCropWrite y h path => [(y, h, path)]
                      | _ => []
                      end) evs.

(** Events of the post-load checks and of capture. *)
Definition isPostLoad (ev : Event) : bool :=
  match ev with
  | EvWaitForSelector _ | EvScroll | EvWaitForTimeout _ | EvQuery _
  | EvMeasure | EvScreenshot _ _ | EvJimpRead _ | EvCropWrite _ _ _
  | EvUnlink _ => true
  | _ => false
  end.

Definition isNewContext (ev : Event) : bool :=
  match ev with EvNewContext _ => true | _ => false end.

Definition isCloseContext (ev : Event) : bool :=
  match ev with EvCloseContext => true | _ => false end.

(** Contexts opened and not closed at the end of a trace. *)
Definition openContexts (evs : list Event) : Z :=
  Z.of_nat (length (List.filter isNewContext evs))
  - Z.of_nat (length (List.filter isCloseContext evs)).

Fixpoint sum_Z (l : list Z) : Z :=
  match l with
  | [] => 0
  | z :: l' => z + sum_Z l'
  end.

(** *** Invariants of the screenshot locals *)

(** The two screenshot locals agree, no recorded name is empty, and every
    recorded name is a file written under [dir] during the job. *)
Definition ShotsOk (dir : string) (st : Locals) : Prop :=
  l_screenshot st = head (l_screenshots st)
  /\ Forall (fun s => s <> EmptyString) (l_screenshots st)
  /\ Forall (fun s => In (path_join dir s) (written (trace st)))
            (l_screenshots st).

(** [m] does not touch the screenshot locals, only adds to the files
    written, and what it returns satisfies [Q]. *)
Definition yields {A} (m : M A) (Q : A -> Prop) : Prop :=
  forall st,
    l_screenshot (fst (m st)) = l_screenshot st
    /\ l_screenshots (fst (m st)) = l_screenshots st
    /\ (exists more,
          written (trace (fst (m st))) = written (trace st) ++ more)
    /\ forall a, snd (m st) = Returns a -> Q a.

Definition keeps {A} (dir : string) (m : M A) : Prop :=
  forall st, ShotsOk dir st -> ShotsOk dir (fst (m st)).

(** [m] neither opens nor closes a browsing context. *)
Definition calm {A} (m : M A) : Prop :=
  forall st,
    List.filter isNewContext (trace (fst (m st)))
    = List.filter isNewContext (trace st)
    /\ List.filter isCloseContext (trace (fst (m st)))
       = List.filter isCloseContext (trace st).

(** [m] deletes no file. *)
Definition keepsFiles {A} (m : M A) : Prop :=
  forall st, unlinked (trace (fst (m st))) = unlinked (trace st).

(** A result whose [screenshot], when set, is a non-empty name. *)
Definition WellNamed (r : PageResult) : Prop := screenshot r <> Some EmptyString.

End Worker.

Import Worker.

(** ** run.ts *)

Module Run.

Definition WORKER_CONCURRENCY : nat := 5.

(** What [yaml.parse] hands to [main]: either key may be missing or null. *)
Record ParsedConfig := mkParsed {
  parsed_default : option PageConfig;
  parsed_pages : option (list (string * option PartialPageConfig))
}.

(** The variables of the scheduling loop, and the jobs handed to [checkPage]
    so far. *)
Record Sched := mkSched {
  results : list PageResult;
  aborted : bool;
  launched : list PageJob
}.

(** [!result.success && job.config.abortIfFail] *)
Definition critical (job : PageJob) (result : PageResult) : bool :=
  negb (success result) && abortIfFail (config job).

(** The inner [for (let j = 0; ...)] loop over a finished batch: push the
    result, then test for abort and [break]. *)
Fixpoint scanBatch (batch : list (PageJob * PageResult)) (st : Sched) : Sched :=
  match batch with
  | [] => st
  | (job, result) :: rest =>
      let st' := mkSched (push (results st) result) (aborted st) (launched st) in
      if critical job result
      then mkSched (results st') true (launched st')
      else scanBatch rest st'
  end.

(** [jobs.slice(i, i + w)] *)
Definition slice {A} (i w : nat) (l : list A) : list A := firstn w (skipn i l).

Section Scheduler.

(** The job at position [k] of the job list meets the environment [envs k];
    jobs share nothing, so the interleaving inside [Promise.all] does not
    show in the results, which come back in batch order. *)
Variable envs : nat -> Env.
Variable outputDir : string.

Definition runJob (k : nat) (job : PageJob) : PageResult :=
  checkPage (envs k) (url job) (device job) (config job) outputDir.

(** The outer [for (let i = 0; i < jobs.length; i += w)] loop.  [fuel]
    bounds the number of iterations; [None] means it ran out. *)
Fixpoint batchLoop (fuel : nat) (w : nat) (jobs : list PageJob) (i : nat)
    (st : Sched) : option Sched :=
  if (i <? length jobs)%nat then
    match fuel with
    | O => None
    | S fuel' =>
        if aborted st then Some st
        else
          let batch := slice i w jobs in
          let batchResults := imap (fun j job => runJob (i + j) job) batch in
          let st1 := mkSched (results st) (aborted st) (launched st ++ batch) in
          batchLoop fuel' w jobs (i + w)
                    (scanBatch (combine batch batchResults) st1)
    end
  else Some st.

(** The [try] block of [main]. *)
Definition schedule (w : nat) (jobs : list PageJob) : option Sched :=
  batchLoop (S (length jobs)) w jobs 0 (mkSched [] false []).

End Scheduler.

(** Every job of the list paired with the result its page check gives. *)
Definition allRuns (envs : nat -> Env) (outputDir : string)
    (jobs : list PageJob) : list (PageJob * PageResult) :=
  imap (fun k job => (job, runJob envs outputDir k job)) jobs.

Definition anyCritical (l : list (PageJob * PageResult)) : bool :=
  existsb (fun jr => critical (fst jr) (snd jr)) l.

(** The results up to and including the first critical one. *)
Fixpoint throughFirstCritical (l : list (PageJob * PageResult))
  : list PageResult :=
  match l with
  | [] => []
  | (job, result) :: rest =>
      result :: (if critical job result then [] else throughFirstCritical rest)
  end.

(** A non-empty string is truthy. *)
Definition truthy (s : option string) : bool :=
  match s with
  | Some s => negb (String.eqb s EmptyString)
  | None => false
  end.

(** The [reduce] that counts screenshot files. *)
Definition totalScreenshotFiles (rs : list PageResult) : Z :=
  fold_left
    (fun sum r =>
       sum + match screenshots r with
             | Some l => Z.of_nat (length l)
             | None => if truthy (screenshot r) then 1 else 0
             end)
    rs 0.

Record Report := mkReport {
  checked : nat;
  passed : nat;
  failed : nat;
  screenshotFiles : Z;
  failures : list PageResult;
  withWarnings : list PageResult;
  exitCode : Z
}.

Definition summary (rs : list PageResult) : Report :=
  let failed := length (List.filter (fun r => negb (success r)) rs) in
  {| checked := length rs;
     passed := length (List.filter success rs);
     failed := failed;
     screenshotFiles := totalScreenshotFiles rs;
     failures := List.filter (fun r => negb (success r)) rs;
     withWarnings :=
       List.filter (fun r => (0 <? length (warnings r))%nat) rs;
     exitCode := if (0 <? failed)%nat then 1 else 0 |}.

(** How a run ends: [process.exit(1)] after an error message and before the
    browser is launched, or the summary of the results. *)
Inductive RunOutcome :=
| Fatal (message : string)
| Finished (st : Sched) (report : Report).

(** [main], from the parsed configuration on.  [None] only if the scheduling
    loop ran out of fuel. *)
Definition main (parsed : ParsedConfig) (envs : nat -> Env)
    (outputDir : string) : option RunOutcome :=
  match parsed_default parsed, parsed_pages parsed with
  | Some d, Some ps =>
      let jobs := expandPageJobs (mkConfig d ps) in
      if Nat.eqb (length jobs) 0 then Some (Fatal "No pages configured")
      else
        match schedule envs outputDir WORKER_CONCURRENCY jobs with
        | Some st => Some (Finished st (summary (results st)))
        | None => None
        end
  | _, _ => Some (Fatal "Invalid config.yaml format")
  end.

(** The expected count of the report: per result, the length of
    [screenshots] when present, else 1 when [screenshot] is set, else 0. *)
Definition filesOfResult (r : PageResult) : Z :=
  match screenshots r with
  | Some l => Z.of_nat (length l)
  | None => match screenshot r with Some _ => 1 | None => 0 end
  end.

End Run.

Import Run.

(** ** Sample inputs *)

Module Samples.

(** A page that answers every call; navigation ends with [response] and the
    document measures [height]. *)
Definition quietEnv (response : option Z) (height : Z) : Env :=
  {| knownDevice := fun _ => false;
     newContextR := Returns tt;
     newPageR := Returns tt;
     gotoR := Returns response;
     navigationTime := 850;
     pageEvents := [];
     waitForSelectorR := fun _ => Returns tt;
     scrollR := Returns tt;
     waitForTimeoutR := Returns tt;
     queryR := fun _ => Returns true;
     dimensionsR := Returns height;
     screenshotR := fun _ => Returns tt;
     now := 1771497000000;
     jimpReadR := Returns tt;
     cropWriteR := fun _ => Returns tt;
     totalDuration := 6100;
     urlToSlug := fun _ => "example-com-home";
     formatDuration := fun _ => "0.9" |}.

(** The same page, with a navigation that throws. *)
Definition timeoutEnv : Env :=
  {| knownDevice := fun _ => false;
     newContextR := Returns tt;
     newPageR := Returns tt;
     gotoR := Throws (JsError "page.goto: Timeout 10000ms exceeded.");
     navigationTime := 10000;
     pageEvents := [];
     waitForSelectorR := fun _ => Returns tt;
     scrollR := Returns tt;
     waitForTimeoutR := Returns tt;
     queryR := fun _ => Returns true;
     dimensionsR := Returns 800;
     screenshotR := fun _ => Returns tt;
     now := 1771497000000;
     jimpReadR := Returns tt;
     cropWriteR := fun _ => Returns tt;
     totalDuration := 10050;
     urlToSlug := fun _ => "example-com-home";
     formatDuration := fun _ => "10.0" |}.

(** A tall page whose second band cannot be written. *)
Definition brokenCropEnv : Env :=
  {| knownDevice := fun _ => false;
     newContextR := Returns tt;
     newPageR := Returns tt;
     gotoR := Returns (Some 200);
     navigationTime := 850;
     pageEvents := [];
     waitForSelectorR := fun _ => Returns tt;
     scrollR := Returns tt;
     waitForTimeoutR := Returns tt;
     queryR := fun _ => Returns true;
     dimensionsR := Returns 2500;
     screenshotR := fun _ => Returns tt;
     now := 1771497000000;
     jimpReadR := Returns tt;
     cropWriteR :=
       fun i => if i =? 1 then Throws (JsError "ENOSPC: no space left on device")
                else Returns tt;
     totalDuration := 6100;
     urlToSlug := fun _ => "example-com-home";
     formatDuration := fun _ => "0.9" |}.

Definition sampleConfig : PageConfig :=
  {| fullPage := true;
     devices := ["desktop"];
     timeoutMs := 10000;
     requiredSelectors := [];
     abortIfFail := false;
     waitUntil := networkidle;
     waitFor := [];
     scrollPage := false;
     maxScreenshotHeight := Some 1000 |}.

Definition criticalConfig : PageConfig :=
  {| fullPage := true;
     devices := ["desktop"];
     timeoutMs := 10000;
     requiredSelectors := [];
     abortIfFail := true;
     waitUntil := networkidle;
     waitFor := [];
     scrollPage := false;
     maxScreenshotHeight := Some 1000 |}.

(** Six jobs; the third is critical. *)
Definition sixJobs : list PageJob :=
  [ mkPageJob "https://example.com/1" "desktop" sampleConfig;
    mkPageJob "https://example.com/2" "desktop" sampleConfig;
    mkPageJob "https://example.com/3" "desktop" criticalConfig;
    mkPageJob "https://example.com/4" "desktop" sampleConfig;
    mkPageJob "https://example.com/5" "desktop" sampleConfig;
    mkPageJob "https://example.com/6" "desktop" sampleConfig ].

(** Every page answers 200 except the third, which answers 404. *)
Definition sixEnvs (k : nat) : Env :=
  if Nat.eqb k 2 then quietEnv (Some 404) 800 else quietEnv (Some 200) 800.

(** One page, configured with no device at all. *)
Definition noDeviceConfig : ParsedConfig :=
  {| parsed_default := Some sampleConfig;
     parsed_pages :=
       Some [("https://example.com/",
              Some (mkPartial None (Some []) None None None None None None None))] |}.

(** Two pages on one device: the first is tall, the second answers 404. *)
Definition twoPages : ParsedConfig :=
  {| parsed_default := Some sampleConfig;
     parsed_pages := Some [("https://example.com/", None);
                           ("https://example.com/missing", None)] |}.

Definition twoEnvs (k : nat) : Env :=
  if Nat.eqb k 0 then quietEnv (Some 200) 2500 else quietEnv (Some 404) 800.

End Samples.

Import Samples.

(** ** The remaining helpers of utils.ts and worker.ts *)

Module Helpers.

(** [s.replace(/c/g, '-')] for one character [c]. *)
Fixpoint replaceChar (c : ascii) (s : string) : string :=
  match s with
  | EmptyString => EmptyString
  | String x s' =>
      String (if Ascii.eqb x c then "-"%char else x) (replaceChar c s')
  end.

(** The [^\/] alternative of [/^\/|\/$/g]: one slash at the start. *)
Definition stripLeading (s : string) : string :=
  match s with
  | String "/"%char s' => s'
  | _ => s
  end.

(** The [\/$] alternative: one slash at the end. *)
Fixpoint stripTrailing (s : string) : string :=
  match s with
  | EmptyString => EmptyString
  | String c EmptyString => if Ascii.eqb c "/"%char then EmptyString else s
  | String c s' => String c (stripTrailing s')
  end.

(** The [try] branch of [urlToSlug], from the [hostname] and [pathname] of
    the parsed URL. *)
Definition slugOfParts (hostname pathname : string) : string :=
  let domain := replaceChar "."%char hostname in
  let path :=
    if String.eqb pathname "/" || String.eqb pathname EmptyString then "home"
    else replaceChar "/"%char (stripTrailing (stripLeading pathname)) in
  domain +:+ "-" +:+ path.

Definition isAlnum (c : ascii) : bool :=
  let n := nat_of_ascii c in
  (((97 <=? n) && (n <=? 122)) || ((65 <=? n) && (n <=? 90))
   || ((48 <=? n) && (n <=? 57)))%nat.

(** The [catch] branch: [url.replace(/[^a-zA-Z0-9]/g, '-')]. *)
Fixpoint fallbackSlug (url : string) : string :=
  match url with
  | EmptyString => EmptyString
  | String c s' => String (if isAlnum c then c else "-"%char) (fallbackSlug s')
  end.

(** [urlToSlug]; [parse] stands for [new URL(url)] and gives the hostname
    and pathname, or [None] where the constructor throws. *)
Definition urlToSlugWith (parse : string -> option (string * string))
    (url : string) : string :=
  match parse url with
  | Some (hostname, pathname) => slugOfParts hostname pathname
  | None => fallbackSlug url
  end.

(** [s.padStart(2, '0')] *)
Definition padStart2 (s : string) : string :=
  match String.length s with
  | O => "00"
  | S O => "0" +:+ s
  | _ => s
  end.

(** [generateTimestamp], from the fields of the local date: [month] is what
    [getMonth()] returns, counted from 0. *)
Definition generateTimestampOf (year month date hours minutes : Z) : string :=
  showInt year +:+ "-" +:+ padStart2 (showInt (month + 1)) +:+ "-"
          +:+ padStart2 (showInt date) +:+ "-"
          +:+ padStart2 (showInt hours) +:+ padStart2 (showInt minutes).

(** The timer callback of [scrollEntirePage], run until it resolves:
    [heights k] is [document.body.scrollHeight] as the callback of tick [k]
    reads it.  The result is the number of ticks and the distance scrolled;
    [None] means the promise has not resolved within [fuel] ticks. *)
Fixpoint scrollTicks (fuel : nat) (heights : nat -> Z) (tick : nat)
    (totalHeight : Z) : option (nat * Z) :=
  match fuel with
  | O => None
  | S fuel' =>
      let scrollHeight := heights tick in
      let totalHeight' := totalHeight + 100 in
      if scrollHeight <=? totalHeight' then Some (S tick, totalHeight')
      else scrollTicks fuel' heights (S tick) totalHeight'
  end.

(** *** What a page check finds, read off the environment *)

Definition isThrow {A} (r : Outcome A) : bool :=
  match r with Throws _ => true | Returns _ => false end.

(** The element a query returns is missing. *)
Definition isMissing (env : Env) (selector : string) : bool :=
  match queryR env selector with Returns false => true | _ => false end.

Definition waitWarnings (env : Env) (selectors : list string) : list string :=
  map (fun s => "waitFor selector not visible within 30s: " +:+ s)
      (List.filter (fun s => isThrow (waitForSelectorR env s)) selectors).

Definition missingErrors (env : Env) (selectors : list string) : list string :=
  map (fun s => "Missing selector: " +:+ s)
      (List.filter (isMissing env) selectors).

Definition consoleFinding (env : Env) : list string :=
  let consoleErrors := fold_left onConsoleErrors (pageEvents env) [] in
  if Nat.eqb (length consoleErrors) 0 then []
  else ["Console errors: " +:+ join "; " consoleErrors].

Definition networkFinding (env : Env) : list string :=
  let networkFailures := fold_left onNetworkFailures (pageEvents env) [] in
  if Nat.eqb (length networkFailures) 0 then []
  else ["Network failures: " +:+ join "; " networkFailures].

Definition slowWarning (env : Env) : list string :=
  if 5000 <? navigationTime env
  then ["Slow page: " +:+ formatDuration env (navigationTime env) +:+ "s"]
  else [].

(** The error the [catch] clause records for a thrown value. *)
Definition caughtError (e : Thrown) : string :=
  match e with
  | JsError message =>
      if includes "Timeout" message then "Timeout exceeded" else message
  | NonError => "Unknown error"
  end.

(** The limit is absent or positive. *)
Definition positiveLimit (config : PageConfig) : Prop :=
  match maxScreenshotHeight config with
  | Some maxHeight => 0 < maxHeight
  | None => True
  end.

(** A slug character: a lower-case letter, a digit or a dash. *)
Definition slugSafe (c : ascii) : bool :=
  isSlugChar c || Ascii.eqb c "-"%char.

Fixpoint allChars (P : ascii -> bool) (s : string) : bool :=
  match s with
  | EmptyString => true
  | String c s' => P c && allChars P s'
  end.

(** No two dashes in a row. *)
Fixpoint noDoubleDash (s : string) : bool :=
  match s with
  | String "-"%char (String "-"%char _) => false
  | String _ s' => noDoubleDash s'
  | EmptyString => true
  end.

(** When [m] throws, the screenshot locals are as before. *)
Definition throwsKeep {A} (m : M A) : Prop :=
  forall st st' e,
    m st = (st', Throws e) ->
    l_screenshot st' = l_screenshot st /\ l_screenshots st' = l_screenshots st.

End Helpers.

Import Helpers.

(** ** More sample inputs *)

Module MoreSamples.

(** A page that loads with a console error, a failed first-party request, a
    request to an ignored vendor, a missing form and a hero that never
    shows. *)
Definition findingsEnv : Env :=
  {| knownDevice := fun _ => false;
     newContextR := Returns tt;
     newPageR := Returns tt;
     gotoR := Returns (Some 200);
     navigationTime := 5400;
     pageEvents :=
       [ Console "log" "ready";
         Console "error" "Uncaught TypeError: x is undefined";
         Response 404 "https://example.com/app.js";
         Response 500 "https://www.facebook.com/tr" ];
     waitForSelectorR :=
       fun s => if String.eqb s ".hero"
                then Throws (JsError "page.waitForSelector: Timeout 30000ms exceeded.")
                else Returns tt;
     scrollR := Returns tt;
     waitForTimeoutR := Returns tt;
     queryR := fun s => Returns (negb (String.eqb s "form"));
     dimensionsR := Returns 2500;
     screenshotR := fun _ => Returns tt;
     now := 1771497000000;
     jimpReadR := Returns tt;
     cropWriteR := fun _ => Returns tt;
     totalDuration := 11200;
     urlToSlug := fun _ => "example-com-home";
     formatDuration := fun _ => "5.4" |}.

Definition findingsConfig : PageConfig :=
  {| fullPage := true;
     devices := ["desktop"; "mobile"];
     timeoutMs := 10000;
     requiredSelectors := ["header"; "form"];
     abortIfFail := false;
     waitUntil := networkidle;
     waitFor := [".hero"];
     scrollPage := true;
     maxScreenshotHeight := Some 1000 |}.

Definition negativeLimitConfig : PageConfig :=
  {| fullPage := true;
     devices := ["desktop"];
     timeoutMs := 10000;
     requiredSelectors := [];
     abortIfFail := false;
     waitUntil := networkidle;
     waitFor := [];
     scrollPage := false;
     maxScreenshotHeight := Some (-1) |}.

(** A parser that knows one URL. *)
Definition sampleParse (u : string) : option (string * string) :=
  if String.eqb u "https://example.com/blog/"
  then Some ("example.com", "/blog/") else None.

(** One critical page that answers 404. *)
Definition criticalPages : ParsedConfig :=
  {| parsed_default := Some criticalConfig;
     parsed_pages := Some [("https://example.com/", None)] |}.

Definition notFoundEnvs (k : nat) : Env := quietEnv (Some 404) 800.

Definition twoDevicePages : Config :=
  {| _default := findingsConfig;
     pages := [("https://example.com/", None)] |}.

End MoreSamples.

Import MoreSamples.

(** ** Properties of utils.ts *)

Section UtilsFacts.

Lemma fold_push_devices (u : string) (c : PageConfig) (ds : list DeviceName)
    (acc : list PageJob) :
  fold_left (fun jobs d => push jobs (mkPageJob u d c)) ds acc
  = acc ++ map (fun d => mkPageJob u d c) ds.
Proof.
  revert acc; induction ds as [|d ds IH]; intros acc; simpl.
  - now rewrite app_nil_r.
  - rewrite IH. unfold push. now rewrite <- app_assoc.
Qed.

Lemma expand_from (cfg : Config) (ps : list (string * option PartialPageConfig))
    (acc : list PageJob) :
  fold_left
    (fun jobs entry =>
       let mergedConfig :=
         mergeConfig (_default cfg) (default emptyPartial (snd entry)) in
       fold_left
         (fun jobs device => push jobs (mkPageJob (fst entry) device mergedConfig))
         (devices mergedConfig) jobs)
    ps acc
  = acc ++ flat_map (jobsOfPage cfg) ps.
Proof.
  revert acc; induction ps as [|p ps IH]; intros acc; simpl.
  - now rewrite app_nil_r.
  - rewrite IH, fold_push_devices. unfold jobsOfPage, resolved.
    now rewrite <- app_assoc.
Qed.

Lemma expandPageJobs_flat_map (cfg : Config) :
  expandPageJobs cfg = flat_map (jobsOfPage cfg) (pages cfg).
Proof. unfold expandPageJobs. now rewrite expand_from. Qed.

Lemma length_flat_map_sum {A B} (f : A -> list B) (l : list A) :
  length (flat_map f l) = sum_nat (map (fun a => length (f a)) l).
Proof.
  induction l as [|a l IH]; simpl; [reflexivity|].
  now rewrite length_app, IH.
Qed.

(** C7: merging a default configuration with an override gives, on each
    field, the override's value when the override has the field and the
    default's value otherwise; a list field present in the override is taken
    whole. *)
Theorem mergeConfig_fieldwise (D : PageConfig) (O : PartialPageConfig)
    (f : FieldName) :
  getField f (mergeConfig D O)
  = match getOverride f O with
    | Some v => v
    | None => getField f D
    end.
Proof.
  destruct O as [a b c d e g h i j]; destruct f; simpl;
    match goal with
    | |- context [default _ ?o] => destruct o; reflexivity
    end.
Qed.

(** C8: the expander yields, for the pages in iteration order, one job per
    device of the page's merged configuration in device-list order, each
    carrying that merged configuration; their number is the sum of the
    device-list lengths. *)
Theorem expandPageJobs_page_then_device (cfg : Config) :
  expandPageJobs cfg
  = flat_map
      (fun entry =>
         map (fun d =>
                mkPageJob (fst entry) d
                  (mergeConfig (_default cfg) (default emptyPartial (snd entry))))
             (devices (mergeConfig (_default cfg) (default emptyPartial (snd entry)))))
      (pages cfg)
  /\ length (expandPageJobs cfg)
     = sum_nat
         (map (fun entry =>
                 length (devices (mergeConfig (_default cfg)
                                    (default emptyPartial (snd entry)))))
              (pages cfg)).
Proof.
  rewrite expandPageJobs_flat_map. split; [reflexivity|].
  rewrite length_flat_map_sum. f_equal.
  apply map_ext; intros e. unfold jobsOfPage, resolved. now rewrite length_map.
Qed.

End UtilsFacts.

(** ** Properties of the screenshot partitioner *)

Section Partition.

Lemma ceilDiv_bounds (a b : Z) :
  0 < b -> a <= b * ceilDiv a b < a + b.
Proof.
  intros Hb. unfold ceilDiv.
  pose proof (Z.mul_div_le (- a) b Hb).
  pose proof (Z.mul_succ_div_gt (- a) b Hb).
  lia.
Qed.

(** The part count and part height of a page taller than the limit. *)
Lemma parts_facts (H M : Z) :
  0 < M -> M < H ->
  let n := ceilDiv H M in
  let p := ceilDiv H n in
  2 <= n /\ 0 < p <= M /\ (n - 1) * p < H /\ H <= n * p.
Proof.
  intros HM HH n p.
  pose proof (ceilDiv_bounds H M HM) as Hn. fold n in Hn.
  assert (2 <= n) by nia.
  pose proof (ceilDiv_bounds H n ltac:(lia)) as Hp. fold p in Hp.
  assert (0 < p) by nia.
  assert (p <= M) by nia.
  repeat split; try lia; nia.
Qed.

(** Height of band [i]: from [i * p] to [min ((i + 1) * p) H]. *)
Lemma actualHeight_as_range (H p i : Z) :
  Z.min p (H - i * p) = Z.min ((i + 1) * p) H - i * p.
Proof. lia. Qed.

Lemma seqZ_succ_cons (m : Z) (k : nat) :
  seqZ m (Z.of_nat (S k)) = m :: seqZ (m + 1) (Z.of_nat k).
Proof.
  rewrite seqZ_cons by lia. f_equal. f_equal; lia.
Qed.

(** The loop, when every band is written. *)
Lemma splitLoop_all_written (env : Env) (u d dir : string) (H p n : Z) :
  (forall i, cropWriteR env i = Returns tt) ->
  forall (k : nat) (i : Z) (acc : list string) (st : Locals),
    splitLoop env u d dir H p n k i acc st
    = (mkLocals
         (trace st
          ++ map (fun j => EvCropWrite (j * p) (Z.min p (H - j * p))
                             (path_join dir (partName u d (j + 1) n)))
                 (seqZ i (Z.of_nat k)))
         (l_errors st) (l_warnings st) (l_screenshot st) (l_screenshots st),
       Returns (acc ++ map (fun j => partName u d (j + 1) n) (seqZ i (Z.of_nat k)))).
Proof.
  intros Hcrop. induction k as [|k IH]; intros i acc st.
  - simpl. rewrite !app_nil_r. destruct st; reflexivity.
  - rewrite seqZ_succ_cons. cbn [splitLoop]. unfold bind at 1, call at 1.
    rewrite Hcrop, IH. unfold logEvent, push; cbn [trace l_errors l_warnings
      l_screenshot l_screenshots map].
    now rewrite <- !app_assoc.
Qed.

Lemma sum_full_bands (H p a : Z) (k : nat) :
  (a + Z.of_nat k) * p <= H -> 0 <= p ->
  sum_Z (map (fun j => Z.min p (H - j * p)) (seqZ a (Z.of_nat k)))
  = Z.of_nat k * p.
Proof.
  revert a; induction k as [|k IH]; intros a Hle Hp.
  - reflexivity.
  - rewrite seqZ_succ_cons. cbn [map sum_Z].
    rewrite IH by nia. nia.
Qed.

Lemma sum_bands (H p n : Z) :
  1 <= n -> 0 <= p -> (n - 1) * p < H -> H <= n * p ->
  sum_Z (map (fun j => Z.min p (H - j * p)) (seqZ 0 n)) = H.
Proof.
  intros Hn Hp Hlt Hle.
  replace n with (Z.of_nat (S (Z.to_nat (n - 1)))) at 1 by lia.
  rewrite seqZ_S, map_app. cbn [map].
  assert (Hsum : forall l x, sum_Z (l ++ [x]) = sum_Z l + x).
  { induction l as [|y l IHl]; intros x; cbn [sum_Z app]; [lia|].
    rewrite IHl; lia. }
  rewrite Hsum, sum_full_bands by (try rewrite Z2Nat.id; lia).
  rewrite Z2Nat.id by lia. nia.
Qed.

(** C2: for a page of height [H] above the limit [M], the partitioner cuts
    [n = ceil(H/M)] bands with [p = ceil(H/n)]: band [i] starts at [i * p]
    and ends at [min ((i + 1) * p) H]; the files are named part 1 to part
    [n] in order; the heights sum to [H]; every band is non-empty and at most
    [M] high; each band ends where the next starts, the first starts at 0
    and the last ends at [H]. *)
Theorem partition_covers_page (env : Env) (u d dir : string) (H M : Z)
    (st : Locals) :
  0 < M -> M < H ->
  dimensionsR env = Returns H ->
  (forall path, screenshotR env path = Returns tt) ->
  jimpReadR env = Returns tt ->
  (forall i, cropWriteR env i = Returns tt) ->
  let n := ceilDiv H M in
  let p := ceilDiv H n in
  let temp := path_join dir ("temp-full-" +:+ showInt (now env) +:+ ".png") in
  let run := captureMultiPartScreenshots env u d M dir st in
  snd run = Returns (map (fun i => partName u d (i + 1) n) (seqZ 0 n))
  /\ length (seqZ 0 n) = Z.to_nat n
  /\ trace (fst run)
     = trace st
       ++ [EvMeasure; EvScreenshot temp true; EvJimpRead temp]
       ++ map (fun i => EvCropWrite (i * p) (Z.min ((i + 1) * p) H - i * p)
                          (path_join dir (partName u d (i + 1) n)))
              (seqZ 0 n)
       ++ [EvUnlink temp]
  /\ sum_Z (map (fun i => Z.min ((i + 1) * p) H - i * p) (seqZ 0 n)) = H
  /\ (forall i, 0 <= i < n ->
        0 < Z.min ((i + 1) * p) H - i * p <= M)
  /\ (forall i, 0 <= i < n - 1 -> Z.min ((i + 1) * p) H = (i + 1) * p)
  /\ Z.min (n * p) H = H.
Proof.
  intros HM HH Hdim Hshot Hread Hcrop n p temp run.
  destruct (parts_facts H M HM HH) as (Hn & Hp & Hlast & Hcover).
  fold n in Hn, Hp, Hlast, Hcover. fold p in Hp, Hlast, Hcover.
  assert (Hrun : run
    = (mkLocals
         (trace st
          ++ [EvMeasure; EvScreenshot temp true; EvJimpRead temp]
          ++ map (fun i => EvCropWrite (i * p) (Z.min ((i + 1) * p) H - i * p)
                             (path_join dir (partName u d (i + 1) n)))
                 (seqZ 0 n)
          ++ [EvUnlink temp])
         (l_errors st) (l_warnings st) (l_screenshot st) (l_screenshots st),
       Returns (map (fun i => partName u d (i + 1) n) (seqZ 0 n)))).
  { subst run. unfold captureMultiPartScreenshots.
    unfold bind at 1, call at 1. rewrite Hdim.
    destruct (Z.leb_spec H M) as [Hle|_]; [lia|].
    fold n. fold p. fold temp.
    unfold bind at 1, call at 1. rewrite Hshot.
    unfold bind at 1, call at 1. rewrite Hread.
    unfold bind at 1.
    rewrite (splitLoop_all_written env u d dir H p n Hcrop).
    rewrite Z2Nat.id by lia.
    unfold bind, call, ret, logEvent;
      cbn [trace l_errors l_warnings l_screenshot l_screenshots app].
    f_equal. f_equal. rewrite <- !app_assoc. cbn [app].
    do 4 f_equal. f_equal. apply map_ext; intros i.
    now rewrite actualHeight_as_range. }
  rewrite Hrun; cbn [fst snd trace].
  split; [reflexivity|].
  split; [apply length_seqZ|].
  split; [reflexivity|].
  split.
  { erewrite map_ext; [apply (sum_bands H p n); lia|].
    intros i; cbn. now rewrite actualHeight_as_range. }
  split; [intros i Hi; nia|].
  split; [intros i Hi; nia|lia].
Qed.

End Partition.

(** ** Properties of the page check *)

Section PageCheck.

Lemma written_app (a b : list Event) : written (a ++ b) = written a ++ written b.
Proof. unfold written. apply flat_map_app. Qed.

(** Resolving the device only ever adds a console warning to the trace. *)
Lemma getDeviceOptions_run (env : Env) (device : DeviceName) (st : Locals) :
  exists pre opts,
    getDeviceOptions env device st
    = (mkLocals (trace st ++ pre) (l_errors st) (l_warnings st)
                (l_screenshot st) (l_screenshots st), Returns opts)
    /\ List.filter isPostLoad pre = [] /\ written pre = []
    /\ List.filter isNewContext pre = [] /\ List.filter isCloseContext pre = [].
Proof.
  assert (Hret : forall opts : DeviceOptions,
            exists pre opts',
              ret opts st
              = (mkLocals (trace st ++ pre) (l_errors st) (l_warnings st)
                          (l_screenshot st) (l_screenshots st), Returns opts')
              /\ List.filter isPostLoad pre = [] /\ written pre = []
              /\ List.filter isNewContext pre = []
              /\ List.filter isCloseContext pre = []).
  { intros opts. exists [], opts. unfold ret. rewrite app_nil_r.
    destruct st; repeat split; reflexivity. }
  unfold getDeviceOptions.
  repeat match goal with
         | |- context [if ?b then _ else _] => destruct b; [apply Hret|]
         end.
  eexists [EvWarn _], desktopViewport.
  unfold bind, call, ret, logEvent; cbn.
  repeat split; reflexivity.
Qed.

(** C3: when navigation ends with a missing response or a status other than
    200, the result carries the single error "Status <code>" (or "Status
    unknown"), no warning and no screenshot, and no post-load check or
    capture call was made. *)
Theorem status_gating (env : Env) (url : string) (device : DeviceName)
    (config : PageConfig) (outputDir : string) (response : option Z) :
  newContextR env = Returns tt ->
  newPageR env = Returns tt ->
  gotoR env = Returns response ->
  badStatus response = true ->
  let st := checkPageRun env url device config outputDir in
  let r := checkPage env url device config outputDir in
  errors r = [statusError response]
  /\ success r = false
  /\ warnings r = []
  /\ screenshot r = None
  /\ screenshots r = None
  /\ List.filter isPostLoad (trace st) = []
  /\ written (trace st) = []
  /\ (statusError response = "Status unknown"
      \/ exists code, response = Some code /\ code <> 200
                      /\ statusError response = "Status " +:+ showInt code).
Proof.
  intros Hctx Hpage Hgoto Hbad st r.
  assert (Hst : exists pre,
             st = mkLocals (pre ++ [EvCloseContext]) [statusError response] [] None []
             /\ List.filter isPostLoad pre = [] /\ written pre = []).
  { subst st. unfold checkPageRun, tryCatch, tryBody.
    unfold bind at 1.
    destruct (getDeviceOptions_run env device initialLocals)
      as (pre & opts & -> & Hpre & Hw & _).
    unfold bind at 1, call at 1. rewrite Hctx.
    unfold bind at 1, call at 1. rewrite Hpage.
    unfold bind at 1, call at 1. rewrite Hgoto.
    rewrite Hbad.
    unfold bind, call, pushError, logEvent, push; cbn.
    eexists. split; [reflexivity|].
    rewrite !List.filter_app, !written_app, Hpre, Hw. split; reflexivity. }
  destruct Hst as (pre & Hst & Hpre & Hw).
  subst r. unfold checkPage. fold st. rewrite Hst. cbn.
  rewrite List.filter_app, written_app, Hpre, Hw.
  repeat split; try reflexivity.
  destruct response as [code|]; [|left; reflexivity].
  unfold statusError. destruct (Z.eqb_spec code 0) as [->|Hz]; [left; reflexivity|].
  right. exists code. repeat split; try reflexivity.
  cbn in Hbad. intros ->. discriminate.
Qed.

(** C4, at a navigation timeout: the context was created, the page check
    returns "Timeout exceeded", and the context was never closed. *)
Theorem context_left_open_on_timeout :
  let st := checkPageRun timeoutEnv "https://example.com/" "desktop"
                         sampleConfig "output" in
  trace st = [EvNewContext (Viewport 1280 800); EvNewPage]
  /\ openContexts (trace st) = 1
  /\ errors (checkPage timeoutEnv "https://example.com/" "desktop"
                       sampleConfig "output") = ["Timeout exceeded"].
Proof. vm_compute. repeat split; reflexivity. Qed.

(** C5, when the second band cannot be written: the full raster and the
    first band are on disk, nothing was deleted, and the page check reports
    the write error. *)
Theorem temp_raster_left_on_crop_error :
  let st := checkPageRun brokenCropEnv "https://example.com/" "desktop"
                         sampleConfig "output" in
  written (trace st)
  = ["output/temp-full-1771497000000.png";
     "output/example-com-home.desktop.part1of3.png"]
  /\ unlinked (trace st) = []
  /\ errors (checkPage brokenCropEnv "https://example.com/" "desktop"
                       sampleConfig "output")
     = ["ENOSPC: no space left on device"].
Proof. vm_compute. repeat split; reflexivity. Qed.

(** Within the limit the partitioner measures and takes one screenshot. *)
Lemma capture_within_limit (env : Env) (u d : string) (M : Z) (dir : string)
    (H : Z) (st : Locals) :
  dimensionsR env = Returns H -> H <= M ->
  captureMultiPartScreenshots env u d M dir st
  = (call (EvScreenshot (path_join dir (singleName u d)) true)
          (screenshotR env (path_join dir (singleName u d))) ;;
     ret [singleName u d]) (logEvent EvMeasure st).
Proof.
  intros Hdim Hle. unfold captureMultiPartScreenshots.
  unfold bind at 1, call at 1. rewrite Hdim.
  destruct (Z.leb_spec H M); [reflexivity|lia].
Qed.

(** C6: when [fullPage] is off, or there is no height limit, or the measured
    height is within the limit, capture writes exactly one file, named
    without a part suffix, and records exactly that name; if the screenshot
    call throws, nothing is written or recorded. *)
Theorem single_capture (env : Env) (url : string) (device : DeviceName)
    (config : PageConfig) (outputDir : string) (st : Locals) :
  (fullPage config = false
   \/ maxScreenshotHeight config = None
   \/ exists H M, maxScreenshotHeight config = Some M
                  /\ dimensionsR env = Returns H /\ H <= M) ->
  let filename := singleName (urlToSlug env url) (deviceToSlug device) in
  let path := path_join outputDir filename in
  let run := takeScreenshots env url device config outputDir st in
  match screenshotR env path with
  | Returns _ =>
      snd run = Returns tt
      /\ l_screenshots (fst run) = [filename]
      /\ l_screenshot (fst run) = Some filename
      /\ written (trace (fst run)) = written (trace st) ++ [path]
      /\ crops (trace (fst run)) = crops (trace st)
  | Throws e =>
      snd run = Throws e
      /\ l_screenshots (fst run) = l_screenshots st
      /\ l_screenshot (fst run) = l_screenshot st
      /\ written (trace (fst run)) = written (trace st)
  end.
Proof.
  intros Hcond filename path run.
  assert (Hcrops : forall a b, crops (a ++ b) = crops a ++ crops b)
    by (intros; unfold crops; apply flat_map_app).
  assert (Hsingle :
    forall full st0,
      written (trace st0) = written (trace st) ->
      crops (trace st0) = crops (trace st) ->
      l_screenshots st0 = l_screenshots st ->
      l_screenshot st0 = l_screenshot st ->
      forall run0,
      (run0 = (call (EvScreenshot path full) (screenshotR env path) ;;
               setScreenshot (Some filename) ;; setScreenshots [filename]) st0
       \/ run0 = (let* shots :=
                    (call (EvScreenshot path full) (screenshotR env path) ;;
                     ret [filename]) in
                  setScreenshots shots ;; setScreenshot (head shots)) st0) ->
      match screenshotR env path with
      | Returns _ =>
          snd run0 = Returns tt
          /\ l_screenshots (fst run0) = [filename]
          /\ l_screenshot (fst run0) = Some filename
          /\ written (trace (fst run0)) = written (trace st) ++ [path]
          /\ crops (trace (fst run0)) = crops (trace st)
      | Throws e =>
          snd run0 = Throws e
          /\ l_screenshots (fst run0) = l_screenshots st
          /\ l_screenshot (fst run0) = l_screenshot st
          /\ written (trace (fst run0)) = written (trace st)
      end).
  { intros full st0 Hw Hc Hs1 Hs2 run0 Hrun0.
    destruct (screenshotR env path) as [[]|e] eqn:Hshot;
      destruct Hrun0 as [-> | ->];
      unfold bind, call, ret, setScreenshot, setScreenshots, logEvent;
      rewrite ?Hshot; cbn;
      rewrite ?written_app, ?Hcrops, ?Hw, ?Hc, ?app_nil_r; cbn;
      repeat split; auto. }
  subst run. unfold takeScreenshots. fold filename. fold path.
  destruct (fullPage config) eqn:Hfull.
  - destruct (maxScreenshotHeight config) as [M|] eqn:Hmax.
    + destruct Hcond as [Hc | [Hc | (H & M' & HM & Hdim & Hle)]];
        try discriminate.
      injection HM as <-.
      apply (Hsingle true (logEvent EvMeasure st));
        try (unfold logEvent; cbn; rewrite ?written_app, ?Hcrops; cbn;
             now rewrite ?app_nil_r).
      right. unfold bind at 1 3.
      now rewrite (capture_within_limit env _ _ M outputDir H st Hdim Hle).
    + apply (Hsingle true st); try reflexivity. left; reflexivity.
  - apply (Hsingle false st); try reflexivity. left; reflexivity.
Qed.

End PageCheck.

(** ** Properties of the scheduler and of the run *)

Section SchedulerFacts.

Variable envs : nat -> Env.
Variable outputDir : string.

(** With a positive width the loop ends within [length jobs - i] rounds. *)
Lemma batchLoop_total (w : nat) (jobs : list PageJob) :
  (0 < w)%nat ->
  forall (fuel i : nat) (st : Sched),
    (length jobs - i <= fuel)%nat ->
    exists st', batchLoop envs outputDir fuel w jobs i st = Some st'.
Proof.
  intros Hw. induction fuel as [|fuel IH]; intros i st Hfuel.
  - cbn [batchLoop]. destruct (Nat.ltb_spec i (length jobs)); [lia|eauto].
  - cbn [batchLoop]. destruct (Nat.ltb_spec i (length jobs)); [|eauto].
    destruct (aborted st); [eauto|].
    apply IH. lia.
Qed.

Lemma schedule_total (w : nat) (jobs : list PageJob) :
  (0 < w)%nat -> exists st, schedule envs outputDir w jobs = Some st.
Proof. intros Hw. apply batchLoop_total; [assumption|lia]. Qed.

Lemma main_total (parsed : ParsedConfig) :
  exists o, main parsed envs outputDir = Some o.
Proof.
  unfold main. destruct (parsed_default parsed), (parsed_pages parsed); eauto.
  destruct (Nat.eqb _ 0); [eauto|].
  destruct (schedule_total WORKER_CONCURRENCY
              (expandPageJobs (mkConfig p l))) as [st ->]; [cbv; lia|eauto].
Qed.

(** C1, as the code has it: with width 5 and six jobs of which the third is
    the first failing [abortIfFail] job, the five jobs of the first batch are
    launched and the sixth is not, and the results kept are those of the
    first three jobs, in order: the scan of the batch stops at the failing
    job. *)
Theorem abort_keeps_results_up_to_failure (J1 J2 J3 J4 J5 J6 : PageJob) :
  abortIfFail (config J3) = true ->
  success (runJob envs outputDir 2 J3) = false ->
  critical J1 (runJob envs outputDir 0 J1) = false ->
  critical J2 (runJob envs outputDir 1 J2) = false ->
  schedule envs outputDir WORKER_CONCURRENCY [J1; J2; J3; J4; J5; J6]
  = Some {| results := [runJob envs outputDir 0 J1;
                        runJob envs outputDir 1 J2;
                        runJob envs outputDir 2 J3];
            aborted := true;
            launched := [J1; J2; J3; J4; J5] |}.
Proof.
  intros Habort Hfail H1 H2.
  assert (H3 : critical J3 (runJob envs outputDir 2 J3) = true)
    by (unfold critical; now rewrite Habort, Hfail).
  unfold schedule, WORKER_CONCURRENCY. cbn.
  rewrite H1. cbn. rewrite H2. cbn. rewrite H3. reflexivity.
Qed.

End SchedulerFacts.

(** C1 as stated fails on the sample run: the third of six jobs is critical
    and answers 404; the results kept are not those of the first five jobs. *)
Lemma batch_results_not_all_kept :
  ~ (exists st,
       schedule sixEnvs "output" WORKER_CONCURRENCY sixJobs = Some st
       /\ map result_url (results st) = map url (firstn 5 sixJobs)).
Proof.
  intros (st & Hst & Hurls).
  vm_compute in Hst. injection Hst as <-.
  vm_compute in Hurls. discriminate.
Qed.

Section RunFacts.

Lemma flat_map_nil_iff {A B} (f : A -> list B) (l : list A) :
  flat_map f l = [] <-> Forall (fun a => f a = []) l.
Proof.
  induction l as [|a l IH]; cbn.
  - split; [constructor|reflexivity].
  - split.
    + intros H. apply app_eq_nil in H as [Ha Hl].
      constructor; [assumption|now apply IH].
    + intros H. inversion H as [|? ? Ha Hl]; subst.
      rewrite Ha. now apply IH.
Qed.

Lemma jobsOfPage_nil_iff (cfg : Config) (e : string * option PartialPageConfig) :
  jobsOfPage cfg e = [] <-> devices (resolved cfg e) = [].
Proof.
  unfold jobsOfPage. destruct (devices (resolved cfg e)); cbn; split;
    congruence.
Qed.

(** C9, as the code has it: a page contributes exactly the jobs of its
    resolved device list, so none when that list is empty; the run stops
    with "No pages configured" exactly when the expansion is empty, that is
    when every page (if any) resolves to an empty device list; otherwise it
    goes on to schedule the jobs. *)
Theorem no_pages_error_iff_no_jobs (d : PageConfig)
    (ps : list (string * option PartialPageConfig))
    (envs : nat -> Env) (outputDir : string) :
  (forall pre e post,
      expandPageJobs (mkConfig d (pre ++ e :: post))
      = expandPageJobs (mkConfig d pre)
        ++ map (fun dev => mkPageJob (fst e) dev
                             (mergeConfig d (default emptyPartial (snd e))))
               (devices (mergeConfig d (default emptyPartial (snd e))))
        ++ expandPageJobs (mkConfig d post))
  /\ (main (mkParsed (Some d) (Some ps)) envs outputDir
      = Some (Fatal "No pages configured")
      <-> Forall (fun e => devices (mergeConfig d (default emptyPartial (snd e))) = [])
                 ps)
  /\ (exists o, main (mkParsed (Some d) (Some ps)) envs outputDir = Some o).
Proof.
  split; [|split].
  - intros pre e post. rewrite !expandPageJobs_flat_map. cbn [pages].
    rewrite flat_map_app. cbn [flat_map]. reflexivity.
  - unfold main; cbn [parsed_default parsed_pages].
    rewrite expandPageJobs_flat_map; cbn [pages].
    destruct (flat_map _ ps) as [|j js] eqn:Hjobs.
    + cbn. split; [intros _|reflexivity].
      apply flat_map_nil_iff in Hjobs.
      eapply List.Forall_impl; [|exact Hjobs].
      intros e He. now apply jobsOfPage_nil_iff in He.
    + cbn [length Nat.eqb]. split.
      * destruct (schedule _ _ _ _); discriminate.
      * intros Hall. exfalso.
        assert (Hnil : flat_map (jobsOfPage (mkConfig d ps)) ps = []).
        { apply flat_map_nil_iff. eapply List.Forall_impl; [|exact Hall].
          intros e He. now apply jobsOfPage_nil_iff. }
        congruence.
  - apply main_total.
Qed.

(** C9 as stated fails: a single page configured with an empty device list
    is a non-empty pages map, and the run stops with "No pages configured". *)
Lemma empty_devices_is_the_error :
  ~ (parsed_pages noDeviceConfig <> Some [] ->
     main noDeviceConfig sixEnvs "output" <> Some (Fatal "No pages configured")).
Proof.
  intros H. apply H; [discriminate|reflexivity].
Qed.

End RunFacts.

(** ** The screenshot fields of a result and the report's file count *)

Section ScreenshotFields.

Lemma yields_keeps {A} (dir : string) (m : M A) (Q : A -> Prop) :
  yields m Q -> keeps dir m.
Proof.
  intros Hm st (H1 & H2 & H3). destruct (Hm st) as (E1 & E2 & [more E3] & _).
  unfold ShotsOk. rewrite E1, E2, E3. repeat split; try assumption.
  eapply List.Forall_impl; [|exact H3]. intros s Hs. apply in_or_app. now left.
Qed.

Lemma yields_weaken {A} (m : M A) (P Q : A -> Prop) :
  (forall a, P a -> Q a) -> yields m P -> yields m Q.
Proof.
  intros HPQ Hm st. destruct (Hm st) as (E1 & E2 & E3 & E4).
  repeat split; auto.
Qed.

Lemma yields_ret {A} (a : A) (Q : A -> Prop) : Q a -> yields (ret a) Q.
Proof.
  intros HQ st. cbn. repeat split; auto.
  - exists []. now rewrite app_nil_r.
  - intros b [= <-]. exact HQ.
Qed.

Lemma yields_bind {A B} (m : M A) (k : A -> M B) (P : A -> Prop)
    (Q : B -> Prop) :
  yields m P -> (forall a, P a -> yields (k a) Q) -> yields (bind m k) Q.
Proof.
  intros Hm Hk st. unfold bind.
  destruct (Hm st) as (E1 & E2 & [more E3] & E4).
  destruct (m st) as [st' [a|e]]; cbn [fst snd] in *.
  - destruct (Hk a (E4 a eq_refl) st') as (F1 & F2 & [more' F3] & F4).
    rewrite F1, F2, F3, E3. repeat split; auto.
    exists (more ++ more'). now rewrite app_assoc.
  - repeat split; eauto. discriminate.
Qed.

Lemma yields_call {A} (ev : Event) (r : Outcome A) :
  yields (call ev r) (fun _ => True).
Proof.
  intros st. unfold call. destruct r; cbn [fst snd]; repeat split; auto.
  - exists (written [ev]). unfold logEvent; cbn [trace]. apply written_app.
  - exists []. now rewrite app_nil_r.
Qed.

Lemma yields_pushError (msg : string) : yields (pushError msg) (fun _ => True).
Proof.
  intros st. cbn. repeat split; auto. exists []. now rewrite app_nil_r.
Qed.

Lemma yields_pushWarning (msg : string) :
  yields (pushWarning msg) (fun _ => True).
Proof.
  intros st. cbn. repeat split; auto. exists []. now rewrite app_nil_r.
Qed.

Lemma yields_when (b : bool) (m : M unit) :
  yields m (fun _ => True) -> yields (when b m) (fun _ => True).
Proof. destruct b; cbn; [auto|]. intros _. now apply yields_ret. Qed.

Lemma yields_tryCatch {A} (m : M A) (h : Thrown -> M A) :
  yields m (fun _ => True) -> (forall e, yields (h e) (fun _ => True)) ->
  yields (tryCatch m h) (fun _ => True).
Proof.
  intros Hm Hh st. unfold tryCatch.
  destruct (Hm st) as (E1 & E2 & [more E3] & _).
  destruct (m st) as [st' [a|e]]; cbn [fst snd] in *; [eauto 6|].
  destruct (Hh e st') as (F1 & F2 & [more' F3] & _).
  rewrite F1, F2, F3, E3. repeat split; auto.
  exists (more ++ more'). now rewrite app_assoc.
Qed.

Lemma keeps_bind {A B} (dir : string) (m : M A) (k : A -> M B) :
  keeps dir m -> (forall a, keeps dir (k a)) -> keeps dir (bind m k).
Proof.
  intros Hm Hk st Hst. unfold bind. specialize (Hm st Hst).
  destruct (m st) as [st' [a|e]]; cbn in *; [now apply Hk|assumption].
Qed.

Lemma keeps_tryCatch {A} (dir : string) (m : M A) (h : Thrown -> M A) :
  keeps dir m -> (forall e, keeps dir (h e)) -> keeps dir (tryCatch m h).
Proof.
  intros Hm Hh st Hst. unfold tryCatch. specialize (Hm st Hst).
  destruct (m st) as [st' [a|e]]; cbn in *; [assumption|now apply Hh].
Qed.

Create HintDb shots.

Hint Resolve yields_call yields_pushError yields_pushWarning yields_when
  yields_tryCatch : shots.

Lemma yields_waitForLoop (env : Env) (selectors : list string) :
  yields (waitForLoop env selectors) (fun _ => True).
Proof.
  induction selectors as [|s rest IH]; cbn [waitForLoop].
  - now apply yields_ret.
  - eapply yields_bind; [|intros ? _; exact IH]. auto with shots.
Qed.

Lemma yields_requiredLoop (env : Env) (selectors : list string) :
  yields (requiredLoop env selectors) (fun _ => True).
Proof.
  induction selectors as [|s rest IH]; cbn [requiredLoop].
  - now apply yields_ret.
  - eapply yields_bind; [apply yields_call|intros element _].
    eapply yields_bind; [|intros ? _; exact IH]. auto with shots.
Qed.

Lemma yields_getDeviceOptions (env : Env) (device : DeviceName) :
  yields (getDeviceOptions env device) (fun _ => True).
Proof.
  intros st.
  destruct (getDeviceOptions_run env device st) as (pre & opts & -> & _).
  cbn [fst snd trace l_screenshot l_screenshots]. repeat split; auto.
  exists (written pre). apply written_app.
Qed.

Lemma append_nonempty (a b : string) : b <> EmptyString -> a +:+ b <> EmptyString.
Proof.
  intros Hb. destruct a as [|c a]; cbn; [assumption|discriminate].
Qed.

Lemma singleName_nonempty (u d : string) : singleName u d <> EmptyString.
Proof.
  unfold singleName. repeat apply append_nonempty. discriminate.
Qed.

Lemma partName_nonempty (u d : string) (i n : Z) :
  partName u d i n <> EmptyString.
Proof.
  unfold partName. repeat apply append_nonempty. discriminate.
Qed.

Lemma yields_splitLoop (env : Env) (u d dir : string) (H p n : Z) :
  forall (k : nat) (i : Z) (acc : list string),
    Forall (fun s => s <> EmptyString) acc ->
    yields (splitLoop env u d dir H p n k i acc)
           (Forall (fun s => s <> EmptyString)).
Proof.
  induction k as [|k IH]; intros i acc Hacc; cbn [splitLoop].
  - now apply yields_ret.
  - eapply yields_bind; [apply yields_call|intros _ _].
    apply IH. unfold push. apply Forall_app. split; [assumption|].
    constructor; [apply partName_nonempty|constructor].
Qed.

Lemma yields_capture (env : Env) (u d : string) (M : Z) (dir : string) :
  yields (captureMultiPartScreenshots env u d M dir)
         (Forall (fun s => s <> EmptyString)).
Proof.
  unfold captureMultiPartScreenshots.
  eapply yields_bind; [apply yields_call|intros H _].
  destruct (H <=? M).
  - eapply yields_bind; [apply yields_call|intros _ _].
    apply yields_ret. constructor; [apply singleName_nonempty|constructor].
  - eapply yields_bind; [apply yields_call|intros _ _].
    eapply yields_bind; [apply yields_call|intros _ _].
    eapply yields_bind; [apply yields_splitLoop; constructor|intros l Hl].
    eapply yields_bind; [apply yields_call|intros _ _].
    now apply yields_ret.
Qed.

(** A path written stays written when the trace grows. *)
Lemma written_grows (dir : string) (l : list string) (st : Locals) (ev : Event) :
  Forall (fun s => In (path_join dir s) (written (trace st))) l ->
  Forall (fun s => In (path_join dir s) (written (trace (logEvent ev st)))) l.
Proof.
  intros Hl. eapply List.Forall_impl; [|exact Hl]. intros s Hs.
  unfold logEvent; cbn [trace]. rewrite written_app. apply in_or_app. now left.
Qed.

(** Every name the loop returns is the name of a band it wrote. *)
Lemma splitLoop_written (env : Env) (u d dir : string) (H p n : Z) :
  forall (k : nat) (i : Z) (acc : list string) (st : Locals),
    Forall (fun s => In (path_join dir s) (written (trace st))) acc ->
    match splitLoop env u d dir H p n k i acc st with
    | (st', Returns l) =>
        Forall (fun s => In (path_join dir s) (written (trace st'))) l
    | (_, Throws _) => True
    end.
Proof.
  induction k as [|k IH]; intros i acc st Hacc; cbn [splitLoop].
  - exact Hacc.
  - unfold bind, call. destruct (cropWriteR env i) as [[]|e]; [|exact I].
    apply IH. unfold push. apply Forall_app. split.
    + now apply written_grows.
    + constructor; [|constructor].
      unfold logEvent; cbn [trace]. rewrite written_app. apply in_or_app.
      right. now left.
Qed.

(** Every name the partitioner returns is the name of a file it wrote. *)
Lemma capture_written (env : Env) (u d : string) (M : Z) (dir : string)
    (st : Locals) :
  match captureMultiPartScreenshots env u d M dir st with
  | (st', Returns l) =>
      Forall (fun s => In (path_join dir s) (written (trace st'))) l
  | (_, Throws _) => True
  end.
Proof.
  unfold captureMultiPartScreenshots, bind, call, ret.
  destruct (dimensionsR env) as [H|e0]; [|exact I].
  destruct (H <=? M).
  - destruct (screenshotR env _) as [[]|e1]; [|exact I].
    constructor; [|constructor].
    unfold logEvent; cbn [trace]. rewrite !written_app. apply in_or_app.
    right. now left.
  - destruct (screenshotR env _) as [[]|e1]; [|exact I].
    destruct (jimpReadR env) as [[]|e2]; [|exact I].
    match goal with
    | |- context [splitLoop ?a ?b ?c ?f ?g ?h ?i ?j ?k ?l ?s] =>
        pose proof (splitLoop_written a b c f g h i j k l s
                      ltac:(constructor)) as Hk;
        destruct (splitLoop a b c f g h i j k l s) as [st' [l'|e3]]
    end; [|exact I].
    now apply written_grows.
Qed.

Lemma keeps_takeScreenshots (env : Env) (url : string) (device : DeviceName)
    (config : PageConfig) (outputDir : string) :
  keeps outputDir (takeScreenshots env url device config outputDir).
Proof.
  assert (Hsingle : forall full,
    keeps outputDir
          (call (EvScreenshot
                   (path_join outputDir
                      (singleName (urlToSlug env url) (deviceToSlug device)))
                   full)
                (screenshotR env
                   (path_join outputDir
                      (singleName (urlToSlug env url) (deviceToSlug device)))) ;;
           setScreenshot
             (Some (singleName (urlToSlug env url) (deviceToSlug device))) ;;
           setScreenshots
             [singleName (urlToSlug env url) (deviceToSlug device)])).
  { intros full st Hst. unfold bind, call, setScreenshot, setScreenshots.
    destruct (screenshotR env _) as [[]|e]; cbn [fst snd].
    - split; [reflexivity|]. cbn [l_screenshots trace logEvent]. split.
      + constructor; [apply singleName_nonempty|constructor].
      + constructor; [|constructor].
        rewrite written_app. apply in_or_app. right. now left.
    - exact Hst. }
  unfold takeScreenshots.
  destruct (fullPage config); [|apply Hsingle].
  destruct (maxScreenshotHeight config) as [M|]; [|apply Hsingle].
  intros st Hst. unfold bind at 1.
  destruct (yields_capture env (urlToSlug env url) (deviceToSlug device) M
              outputDir st) as (E1 & E2 & [more E3] & E4).
  pose proof (capture_written env (urlToSlug env url) (deviceToSlug device) M
                outputDir st) as Hw.
  destruct (captureMultiPartScreenshots _ _ _ _ _ st) as [st' [l|e]];
    cbn [fst snd] in *.
  - split; [reflexivity|]. cbn. split; [now apply E4|exact Hw].
  - destruct Hst as (H1 & H2 & H3). unfold ShotsOk. rewrite E1, E2, E3.
    repeat split; try assumption.
    eapply List.Forall_impl; [|exact H3]. intros s Hs. apply in_or_app.
    now left.
Qed.

Lemma keeps_tryBody (env : Env) (url : string) (device : DeviceName)
    (config : PageConfig) (outputDir : string) :
  keeps outputDir (tryBody env url device config outputDir).
Proof.
  unfold tryBody.
  apply keeps_bind; [eapply yields_keeps, yields_getDeviceOptions|intros opts].
  apply keeps_bind; [eapply yields_keeps, yields_call|intros _].
  apply keeps_bind; [eapply yields_keeps, yields_call|intros _].
  apply keeps_bind; [eapply yields_keeps, yields_call|intros response].
  apply keeps_bind; [|intros _; eapply yields_keeps, yields_call].
  destruct (badStatus response); [eapply yields_keeps, yields_pushError|].
  unfold postLoad.
  apply keeps_bind; [eapply yields_keeps, yields_waitForLoop|intros _].
  apply keeps_bind; [eapply yields_keeps; auto with shots|intros _].
  apply keeps_bind; [eapply yields_keeps, yields_call|intros _].
  apply keeps_bind; [eapply yields_keeps; auto with shots|intros _].
  apply keeps_bind; [eapply yields_keeps; auto with shots|intros _].
  apply keeps_bind; [eapply yields_keeps, yields_requiredLoop|intros _].
  apply keeps_bind; [eapply yields_keeps; auto with shots|intros _].
  apply keeps_takeScreenshots.
Qed.

Lemma checkPageRun_ShotsOk (env : Env) (url : string) (device : DeviceName)
    (config : PageConfig) (outputDir : string) :
  ShotsOk outputDir (checkPageRun env url device config outputDir).
Proof.
  unfold checkPageRun. apply keeps_tryCatch.
  - apply keeps_tryBody.
  - intros [message|]; cbn; [destruct (includes _ _)|];
      eapply yields_keeps, yields_pushError.
  - split; [reflexivity|split; constructor].
Qed.

Lemma checkPage_WellNamed (env : Env) (url : string) (device : DeviceName)
    (config : PageConfig) (outputDir : string) :
  WellNamed (checkPage env url device config outputDir).
Proof.
  unfold WellNamed, checkPage, resultOf; cbn.
  destruct (checkPageRun_ShotsOk env url device config outputDir)
    as (-> & Hne & _).
  destruct (l_screenshots _) as [|s l]; cbn; [discriminate|].
  inversion Hne; subst. congruence.
Qed.

Lemma fold_sum (f : PageResult -> Z) (rs : list PageResult) (a : Z) :
  fold_left (fun sum r => sum + f r) rs a = a + sum_Z (map f rs).
Proof.
  revert a; induction rs as [|r rs IH]; intros a; cbn; [lia|].
  rewrite IH. lia.
Qed.

Lemma total_of_well_named (rs : list PageResult) :
  Forall WellNamed rs ->
  totalScreenshotFiles rs = sum_Z (map filesOfResult rs).
Proof.
  intros Hrs. unfold totalScreenshotFiles. rewrite fold_sum, Z.add_0_l.
  f_equal. apply map_ext_Forall.
  eapply List.Forall_impl; [|exact Hrs]. intros r Hr.
  unfold filesOfResult.
  destruct (screenshots r); [reflexivity|].
  unfold WellNamed in Hr. destruct (screenshot r) as [s|]; cbn; [|reflexivity].
  destruct (String.eqb_spec s EmptyString); [congruence|reflexivity].
Qed.

Lemma scanBatch_WellNamed (batch : list (PageJob * PageResult)) :
  Forall (fun jr => WellNamed (snd jr)) batch ->
  forall st, Forall WellNamed (results st) ->
             Forall WellNamed (results (scanBatch batch st)).
Proof.
  induction 1 as [|[job result] rest Hr Hrest IH]; intros st Hst; cbn.
  - assumption.
  - assert (Forall WellNamed (push (results st) result)).
    { unfold push. apply Forall_app. split; [assumption|].
      constructor; [exact Hr|constructor]. }
    destruct (critical job result); cbn; [assumption|].
    apply IH. cbn. assumption.
Qed.

Lemma batchLoop_WellNamed (envs : nat -> Env) (outputDir : string) (w : nat)
    (jobs : list PageJob) :
  forall (fuel i : nat) (st st' : Sched),
    Forall WellNamed (results st) ->
    batchLoop envs outputDir fuel w jobs i st = Some st' ->
    Forall WellNamed (results st').
Proof.
  induction fuel as [|fuel IH]; intros i st st' Hst; cbn [batchLoop].
  - destruct (i <? length jobs)%nat; [discriminate|]. now intros [= <-].
  - destruct (i <? length jobs)%nat; [|now intros [= <-]].
    destruct (aborted st); [now intros [= <-]|].
    apply IH. apply scanBatch_WellNamed; cbn; [|assumption].
    apply List.Forall_forall. intros [job result] Hin.
    apply in_combine_r in Hin. cbn.
    apply list_elem_of_In, elem_of_lookup_imap in Hin
      as (j & job' & -> & _).
    apply checkPage_WellNamed.
Qed.

(** C10: the [screenshots] key of a result is present exactly when the
    capture step handed more than one file name to [checkPage], and then
    holds those names; otherwise it is absent and [screenshot] holds the
    single name, if any.  Every such name is a file written during the job.
    The report's file count is the sum, over the results, of the length of
    [screenshots] when present, else 1 when [screenshot] is set, else 0. *)
Theorem screenshot_fields_and_count :
  (forall env url device config outputDir,
      let captured := l_screenshots (checkPageRun env url device config outputDir) in
      let r := checkPage env url device config outputDir in
      screenshots r
      = (if (1 <? length captured)%nat then Some captured else None)
      /\ screenshot r = head captured
      /\ filesOfResult r = Z.of_nat (length captured)
      /\ Forall (fun name =>
                   In (path_join outputDir name)
                      (written (trace (checkPageRun env url device config
                                                    outputDir))))
                captured)
  /\ (forall parsed envs outputDir,
         match main parsed envs outputDir with
         | Some (Finished st report) =>
             screenshotFiles report = sum_Z (map filesOfResult (results st))
         | _ => True
         end).
Proof.
  split.
  - intros env url device config outputDir captured r.
    pose proof (checkPageRun_ShotsOk env url device config outputDir)
      as (Hhead & _ & Hwritten).
    subst r captured. unfold checkPage, resultOf, filesOfResult; cbn.
    rewrite Hhead.
    split; [|split; [reflexivity|split; [|exact Hwritten]]];
      destruct (l_screenshots _) as [|a [|b l]]; reflexivity.
  - intros parsed envs outputDir. unfold main.
    destruct (parsed_default parsed) as [d|]; [|exact I].
    destruct (parsed_pages parsed) as [ps|]; [|exact I].
    destruct (Nat.eqb _ 0); [exact I|].
    destruct (schedule _ _ _ _) as [st|] eqn:Hst; [|exact I].
    cbn. apply total_of_well_named.
    eapply batchLoop_WellNamed; [|exact Hst]. constructor.
Qed.

End ScreenshotFields.

(** ** When the context is closed and the temporary raster deleted *)

Section Release.

Lemma calm_ret {A} (a : A) : calm (ret a).
Proof. intros st. cbn. auto. Qed.

Lemma calm_bind {A B} (m : M A) (k : A -> M B) :
  calm m -> (forall a, calm (k a)) -> calm (bind m k).
Proof.
  intros Hm Hk st. unfold bind. destruct (Hm st) as [E1 E2].
  destruct (m st) as [st' [a|e]]; cbn in *; [|auto].
  destruct (Hk a st') as [F1 F2]. rewrite F1, F2. auto.
Qed.

Lemma calm_tryCatch {A} (m : M A) (h : Thrown -> M A) :
  calm m -> (forall e, calm (h e)) -> calm (tryCatch m h).
Proof.
  intros Hm Hh st. unfold tryCatch. destruct (Hm st) as [E1 E2].
  destruct (m st) as [st' [a|e]]; cbn in *; [auto|].
  destruct (Hh e st') as [F1 F2]. rewrite F1, F2. auto.
Qed.

Lemma calm_call {A} (ev : Event) (r : Outcome A) :
  isNewContext ev = false -> isCloseContext ev = false -> calm (call ev r).
Proof.
  intros Hn Hc st. unfold call. destruct r; cbn; [|auto].
  rewrite !List.filter_app; cbn. rewrite Hn, Hc, !app_nil_r. auto.
Qed.

Lemma calm_pushError (msg : string) : calm (pushError msg).
Proof. intros st. cbn. auto. Qed.

Lemma calm_pushWarning (msg : string) : calm (pushWarning msg).
Proof. intros st. cbn. auto. Qed.

Lemma calm_setScreenshot (s : option string) : calm (setScreenshot s).
Proof. intros st. cbn. auto. Qed.

Lemma calm_setScreenshots (l : list string) : calm (setScreenshots l).
Proof. intros st. cbn. auto. Qed.

Lemma calm_when (b : bool) (m : M unit) : calm m -> calm (when b m).
Proof. destruct b; cbn; [auto|]. intros _. apply calm_ret. Qed.

Create HintDb calm.

Hint Resolve calm_ret calm_pushError calm_pushWarning calm_setScreenshot
  calm_setScreenshots calm_when calm_tryCatch : calm.

(** Splits the sequencing and closes the calls that are not context calls. *)
Ltac calm_steps :=
  repeat first
    [ apply calm_bind; [|intros ?]
    | apply calm_call; reflexivity
    | solve [auto with calm] ].

Lemma calm_waitForLoop (env : Env) (selectors : list string) :
  calm (waitForLoop env selectors).
Proof.
  induction selectors as [|s rest IH]; cbn [waitForLoop]; [apply calm_ret|].
  apply calm_bind; [|intros _; exact IH].
  apply calm_tryCatch; [apply calm_call; reflexivity|intros _; apply calm_pushWarning].
Qed.

Lemma calm_requiredLoop (env : Env) (selectors : list string) :
  calm (requiredLoop env selectors).
Proof.
  induction selectors as [|s rest IH]; cbn [requiredLoop]; [apply calm_ret|].
  apply calm_bind; [apply calm_call; reflexivity|intros element].
  apply calm_bind; [auto with calm|intros _; exact IH].
Qed.

Lemma calm_splitLoop (env : Env) (u d dir : string) (H p n : Z) :
  forall (k : nat) (i : Z) (acc : list string),
    calm (splitLoop env u d dir H p n k i acc).
Proof.
  induction k as [|k IH]; intros i acc; cbn [splitLoop]; [apply calm_ret|].
  apply calm_bind; [apply calm_call; reflexivity|intros _; apply IH].
Qed.

Lemma calm_capture (env : Env) (u d : string) (M : Z) (dir : string) :
  calm (captureMultiPartScreenshots env u d M dir).
Proof.
  unfold captureMultiPartScreenshots.
  apply calm_bind; [apply calm_call; reflexivity|intros H].
  destruct (H <=? M); calm_steps.
  apply calm_splitLoop.
Qed.

Lemma calm_takeScreenshots (env : Env) (url : string) (device : DeviceName)
    (config : PageConfig) (outputDir : string) :
  calm (takeScreenshots env url device config outputDir).
Proof.
  unfold takeScreenshots.
  destruct (fullPage config); [destruct (maxScreenshotHeight config)|];
    [|calm_steps..].
  apply calm_bind; [apply calm_capture|intros shots; calm_steps].
Qed.

Lemma calm_postLoad (env : Env) (url : string) (device : DeviceName)
    (config : PageConfig) (outputDir : string) :
  calm (postLoad env url device config outputDir).
Proof.
  unfold postLoad.
  apply calm_bind; [apply calm_waitForLoop|intros _].
  apply calm_bind; [apply calm_when, calm_call; reflexivity|intros _].
  apply calm_bind; [apply calm_call; reflexivity|intros _].
  apply calm_bind; [auto with calm|intros _].
  apply calm_bind; [auto with calm|intros _].
  apply calm_bind; [apply calm_requiredLoop|intros _].
  apply calm_bind; [auto with calm|intros _].
  apply calm_takeScreenshots.
Qed.

Lemma calm_catchClause (e : Thrown) : calm (catchClause e).
Proof.
  destruct e as [message|]; cbn; [destruct (includes _ _)|]; apply calm_pushError.
Qed.

(** X21: once the context exists, [checkPage] closes it exactly when the
    [try] body runs to its end; when the body throws, the context stays
    open; when the context could not be created, none is open. *)
Lemma context_closed_only_without_throw (env : Env) (url : string)
    (device : DeviceName) (config : PageConfig) (outputDir : string) :
  openContexts (trace (checkPageRun env url device config outputDir))
  = match newContextR env,
          snd (tryBody env url device config outputDir initialLocals) with
    | Returns _, Throws _ => 1
    | _, _ => 0
    end.
Proof.
  unfold checkPageRun, tryCatch.
  assert (Hbody : exists st o,
    tryBody env url device config outputDir initialLocals = (st, o)
    /\ openContexts (trace st)
       = match newContextR env, o with
         | Returns _, Throws _ => 1
         | _, _ => 0
         end).
  { unfold tryBody. unfold bind at 1.
    destruct (getDeviceOptions_run env device initialLocals)
      as (pre & opts & -> & _ & _ & Hn & Hc).
    unfold bind at 1, call at 1.
    destruct (newContextR env) as [[]|e0].
    2:{ eexists _, _. split; [reflexivity|].
        unfold openContexts; cbn. now rewrite Hn, Hc. }
    set (st1 := logEvent _ _).
    assert (H1 : List.filter isNewContext (trace st1) = [EvNewContext opts]
                 /\ List.filter isCloseContext (trace st1) = []).
    { subst st1; cbn. rewrite !List.filter_app, Hn, Hc. auto. }
    clearbody st1. destruct H1 as [N1 C1].
    set (middle := fun response : option Z =>
                     if badStatus response then pushError (statusError response)
                     else postLoad env url device config outputDir).
    assert (Hmid : forall response, calm (middle response)).
    { intros response. subst middle. cbn.
      destruct (badStatus response); [apply calm_pushError|apply calm_postLoad]. }
    unfold bind at 1.
    destruct (calm_call EvNewPage (newPageR env) eq_refl eq_refl st1)
      as [N2 C2].
    destruct (call EvNewPage (newPageR env) st1) as [st2 [[]|e2]];
      cbn [fst snd] in *.
    2:{ eexists _, _. split; [reflexivity|].
        unfold openContexts. rewrite N2, C2, N1, C1. reflexivity. }
    unfold bind at 1.
    destruct (calm_call (EvGoto url (waitUntil config) (timeoutMs config))
                (gotoR env) eq_refl eq_refl st2) as [N3 C3].
    destruct (call (EvGoto url (waitUntil config) (timeoutMs config))
                (gotoR env) st2) as [st3 [response|e3]]; cbn [fst snd] in *.
    2:{ eexists _, _. split; [reflexivity|].
        unfold openContexts. rewrite N3, C3, N2, C2, N1, C1. reflexivity. }
    fold (middle response). unfold bind at 1.
    destruct (Hmid response st3) as [N4 C4].
    destruct (middle response st3) as [st4 [[]|e4]]; cbn [fst snd] in *.
    2:{ eexists _, _. split; [reflexivity|].
        unfold openContexts. rewrite N4, C4, N3, C3, N2, C2, N1, C1.
        reflexivity. }
    eexists _, _. split; [reflexivity|].
    unfold logEvent, openContexts; cbn.
    rewrite !List.filter_app, N4, C4, N3, C3, N2, C2, N1, C1. reflexivity. }
  destruct Hbody as (st & o & -> & Hopen). cbn [fst snd].
  destruct o as [[]|e]; cbn [fst snd]; [exact Hopen|].
  destruct (calm_catchClause e st) as [N C].
  unfold openContexts in *. now rewrite N, C.
Qed.

Lemma keepsFiles_splitLoop (env : Env) (u d dir : string) (H p n : Z) :
  forall (k : nat) (i : Z) (acc : list string),
    keepsFiles (splitLoop env u d dir H p n k i acc).
Proof.
  induction k as [|k IH]; intros i acc st; cbn [splitLoop]; [reflexivity|].
  unfold bind, call. destruct (cropWriteR env i) as [[]|e]; [|reflexivity].
  rewrite IH. unfold logEvent, unlinked; cbn.
  rewrite flat_map_app; cbn. now rewrite app_nil_r.
Qed.

(** X22: the partitioner deletes the temporary raster only on its normal
    exit: whenever it throws, it has deleted nothing. *)
Lemma nothing_deleted_when_capture_throws (env : Env) (u d : string) (M : Z)
    (dir : string) (st : Locals) (e : Thrown) :
  snd (captureMultiPartScreenshots env u d M dir st) = Throws e ->
  unlinked (trace (fst (captureMultiPartScreenshots env u d M dir st)))
  = unlinked (trace st).
Proof.
  assert (Hlog : forall ev st0,
             match ev with EvUnlink _ => False | _ => True end ->
             unlinked (trace (logEvent ev st0)) = unlinked (trace st0)).
  { intros ev st0 Hev. unfold logEvent, unlinked; cbn.
    rewrite flat_map_app; cbn. destruct ev; try contradiction;
      now rewrite app_nil_r. }
  unfold captureMultiPartScreenshots, bind, call, ret.
  destruct (dimensionsR env) as [H|e0]; [|reflexivity].
  destruct (H <=? M).
  - destruct (screenshotR env _) as [[]|e1]; [discriminate|].
    intros _. cbn [fst snd]. now rewrite Hlog.
  - destruct (screenshotR env _) as [[]|e1];
      [|intros _; cbn [fst snd]; now rewrite Hlog].
    destruct (jimpReadR env) as [[]|e2];
      [|intros _; cbn [fst snd]; now rewrite !Hlog].
    match goal with
    | |- context [splitLoop ?a ?b ?c ?f ?g ?h ?i ?j ?k ?l ?s] =>
        pose proof (keepsFiles_splitLoop a b c f g h i j k l s) as Hk;
        destruct (splitLoop a b c f g h i j k l s) as [st' [l'|e3]]
    end; [discriminate|].
    intros _. cbn [fst snd] in *. now rewrite Hk, !Hlog.
Qed.

End Release.

(** ** The results of a run, for every job list and width *)

Section ResultsPrefix.

Variable envs : nat -> Env.
Variable outputDir : string.

Lemma imap_drop_shift {A B} (i : nat) :
  forall (l : list A) (h : nat -> A -> B),
    imap (fun j => h (i + j)%nat) (skipn i l) = skipn i (imap h l).
Proof.
  induction i as [|i IH]; intros l h.
  - reflexivity.
  - destruct l as [|x l]; [reflexivity|].
    cbn [skipn]. rewrite imap_cons. cbn [skipn]. rewrite <- IH. reflexivity.
Qed.

Lemma imap_take_commute {A B} (w : nat) :
  forall (l : list A) (h : nat -> A -> B),
    imap h (firstn w l) = firstn w (imap h l).
Proof.
  induction w as [|w IH]; intros l h; [reflexivity|].
  destruct l as [|x l]; [reflexivity|].
  cbn [firstn]. rewrite !imap_cons. cbn [firstn]. now rewrite IH.
Qed.

Lemma combine_imap {A B} (l : list A) :
  forall g : nat -> A -> B,
    combine l (imap g l) = imap (fun j a => (a, g j a)) l.
Proof.
  induction l as [|x l IH]; intros g; [reflexivity|].
  rewrite !imap_cons. cbn [combine]. now rewrite IH.
Qed.

(** A batch with its results is a slice of all the runs. *)
Lemma batch_is_slice (w i : nat) (jobs : list PageJob) :
  combine (slice i w jobs)
          (imap (fun j job => runJob envs outputDir (i + j) job) (slice i w jobs))
  = slice i w (allRuns envs outputDir jobs).
Proof.
  rewrite combine_imap. unfold slice, allRuns.
  rewrite imap_take_commute. f_equal.
  apply (imap_drop_shift i jobs
           (fun k job => (job, runJob envs outputDir k job))).
Qed.

Lemma scanBatch_results (batch : list (PageJob * PageResult)) :
  forall st,
    results (scanBatch batch st) = results st ++ throughFirstCritical batch
    /\ aborted (scanBatch batch st) = aborted st || anyCritical batch
    /\ launched (scanBatch batch st) = launched st.
Proof.
  induction batch as [|[job result] rest IH]; intros st; cbn.
  - now rewrite app_nil_r, orb_false_r.
  - destruct (critical job result); cbn.
    + now rewrite orb_true_r.
    + destruct (IH (mkSched (push (results st) result) (aborted st)
                            (launched st))) as (-> & -> & ->).
      cbn. unfold push. now rewrite <- app_assoc.
Qed.

Lemma through_app (a b : list (PageJob * PageResult)) :
  throughFirstCritical (a ++ b)
  = if anyCritical a then throughFirstCritical a
    else throughFirstCritical a ++ throughFirstCritical b.
Proof.
  induction a as [|[job result] a IH]; [reflexivity|].
  unfold anyCritical in *.
  cbn [throughFirstCritical existsb app fst snd].
  destruct (critical job result); cbn [orb]; [reflexivity|].
  rewrite IH. now destruct (existsb _ a).
Qed.

Lemma anyCritical_app (a b : list (PageJob * PageResult)) :
  anyCritical (a ++ b) = anyCritical a || anyCritical b.
Proof. apply existsb_app. Qed.

Lemma through_take_all (l : list (PageJob * PageResult)) (n : nat) :
  anyCritical (firstn n l) = true ->
  throughFirstCritical (firstn n l) = throughFirstCritical l.
Proof.
  intros Hany. rewrite <- (firstn_skipn n l) at 2.
  now rewrite through_app, Hany.
Qed.

(** Once the abort flag is set the loop launches nothing more. *)
Lemma batchLoop_aborted (w : nat) (jobs : list PageJob) :
  forall (fuel i : nat) (st st' : Sched),
    aborted st = true ->
    batchLoop envs outputDir fuel w jobs i st = Some st' -> st' = st.
Proof.
  intros fuel i st st' Hab. destruct fuel as [|fuel]; cbn [batchLoop].
  - destruct (i <? length jobs)%nat; [discriminate|now intros [= <-]].
  - destruct (i <? length jobs)%nat; [|now intros [= <-]].
    rewrite Hab. now intros [= <-].
Qed.

Lemma batchLoop_results (w : nat) (jobs : list PageJob) :
  forall (fuel i : nat) (st st' : Sched),
    aborted st = false ->
    results st = throughFirstCritical (firstn i (allRuns envs outputDir jobs)) ->
    anyCritical (firstn i (allRuns envs outputDir jobs)) = false ->
    batchLoop envs outputDir fuel w jobs i st = Some st' ->
    results st' = throughFirstCritical (allRuns envs outputDir jobs)
    /\ aborted st' = anyCritical (allRuns envs outputDir jobs).
Proof.
  set (all := allRuns envs outputDir jobs).
  assert (Hlen : length all = length jobs)
    by (subst all; unfold allRuns; apply length_imap).
  assert (Hend : forall i st,
             (length jobs <= i)%nat -> aborted st = false ->
             results st = throughFirstCritical (firstn i all) ->
             anyCritical (firstn i all) = false ->
             results st = throughFirstCritical all
             /\ aborted st = anyCritical all).
  { intros i st Hi Hab Hres Hany.
    rewrite firstn_all2 in Hres, Hany by lia. now rewrite Hab, Hany. }
  induction fuel as [|fuel IH]; intros i st st' Hab Hres Hany;
    cbn [batchLoop].
  - destruct (Nat.ltb_spec i (length jobs)); [discriminate|].
    intros [= <-]. now apply (Hend i).
  - destruct (Nat.ltb_spec i (length jobs)) as [Hlt|Hge];
      [|intros [= <-]; now apply (Hend i)].
    destruct st as [res ab la]. cbn [aborted results launched] in *.
    subst ab. rewrite batch_is_slice. fold all.
    set (st1 := mkSched res false (la ++ slice i w jobs)).
    destruct (scanBatch_results (slice i w all) st1) as (Hr & Ha & _).
    cbn [results aborted st1 orb] in Hr, Ha.
    assert (Htake : firstn (i + w) all = firstn i all ++ slice i w all)
      by (unfold slice; now rewrite take_take_drop).
    destruct (anyCritical (slice i w all)) eqn:Hbatch.
    + intros Hloop. apply batchLoop_aborted in Hloop; [|exact Ha].
      subst st'. rewrite Hr, Ha, Hres.
      assert (Hany' : anyCritical (firstn (i + w) all) = true)
        by (rewrite Htake, anyCritical_app, Hbatch; apply orb_true_r).
      rewrite <- (through_take_all all (i + w) Hany'), Htake, through_app, Hany.
      split; [reflexivity|].
      rewrite <- (firstn_skipn (i + w) all), anyCritical_app, Hany'.
      reflexivity.
    + apply IH; [exact Ha| |].
      * now rewrite Hr, Hres, Htake, through_app, Hany.
      * now rewrite Htake, anyCritical_app, Hany, Hbatch.
Qed.

(** X9: for every job list and every positive width the run returns, and the
    results it keeps are those of the jobs up to and including the first
    failing [abortIfFail] job, in job order (all of them when there is
    none); the abort flag tells whether there was one.  The width plays no
    part in which results are kept. *)
Lemma schedule_results_prefix (w : nat) (jobs : list PageJob) :
  (0 < w)%nat ->
  exists st,
    schedule envs outputDir w jobs = Some st
    /\ results st = throughFirstCritical (allRuns envs outputDir jobs)
    /\ aborted st = anyCritical (allRuns envs outputDir jobs).
Proof.
  intros Hw. destruct (schedule_total envs outputDir w jobs Hw) as [st Hst].
  exists st. split; [exact Hst|].
  apply (batchLoop_results w jobs (S (length jobs)) 0 (mkSched [] false []) st);
    [reflexivity | reflexivity | reflexivity | exact Hst].
Qed.

End ResultsPrefix.

(** ** The theorems at the sample inputs *)

Section Witnesses.

(** A page 2500 high under a limit of 1000 is cut into three named parts. *)
Lemma partition_covers_page_witness :
  0 < 1000 /\ 1000 < 2500
  /\ snd (captureMultiPartScreenshots (quietEnv (Some 200) 2500)
            "example-com-home" "desktop" 1000 "output" initialLocals)
     = Returns ["example-com-home.desktop.part1of3.png";
                "example-com-home.desktop.part2of3.png";
                "example-com-home.desktop.part3of3.png"].
Proof.
  split; [lia|]. split; [lia|].
  apply (partition_covers_page (quietEnv (Some 200) 2500)
           "example-com-home" "desktop" "output" 2500 1000 initialLocals);
    [lia | lia | reflexivity | reflexivity | reflexivity | reflexivity].
Defined.

(** A page answering 404 yields the single error "Status 404". *)
Lemma status_gating_witness :
  badStatus (Some 404) = true
  /\ errors (checkPage (quietEnv (Some 404) 800) "https://example.com/"
                       "desktop" sampleConfig "output")
     = ["Status 404"].
Proof.
  split; [reflexivity|].
  apply (status_gating (quietEnv (Some 404) 800) "https://example.com/"
           "desktop" sampleConfig "output" (Some 404));
    reflexivity.
Defined.

(** A page 800 high under a limit of 1000 is captured in one file. *)
Lemma single_capture_witness :
  l_screenshots
    (fst (takeScreenshots (quietEnv (Some 200) 800) "https://example.com/"
            "desktop" sampleConfig "output" initialLocals))
  = ["example-com-home.desktop.png"].
Proof.
  pose proof (single_capture (quietEnv (Some 200) 800) "https://example.com/"
                "desktop" sampleConfig "output" initialLocals) as Hcap.
  cbv zeta in Hcap. cbn [quietEnv screenshotR] in Hcap.
  apply Hcap. right. right. exists 800, 1000.
  split; [reflexivity | split; [reflexivity | lia]].
Defined.

(** The sample run of six jobs keeps the results of the first three. *)
Lemma abort_keeps_results_up_to_failure_witness :
  option_map (fun st => (map result_url (results st), map url (launched st)))
             (schedule sixEnvs "output" WORKER_CONCURRENCY sixJobs)
  = Some (["https://example.com/1"; "https://example.com/2";
           "https://example.com/3"],
          ["https://example.com/1"; "https://example.com/2";
           "https://example.com/3"; "https://example.com/4";
           "https://example.com/5"]).
Proof.
  unfold sixJobs.
  rewrite (abort_keeps_results_up_to_failure sixEnvs "output");
    reflexivity.
Defined.

(** A whole run: two jobs checked, one passed, one failed, three files. *)
Example two_pages_report :
  option_map
    (fun o => match o with
              | Finished st report =>
                  Some (checked report, passed report, failed report,
                        screenshotFiles report, exitCode report,
                        map errors (results st))
              | Fatal _ => None
              end)
    (main twoPages twoEnvs "output")
  = Some (Some (2%nat, 1%nat, 1%nat, 3, 1, [[]; ["Status 404"]])).
Proof. vm_compute. reflexivity. Qed.

End Witnesses.

(** ** The loops and filters of the page check *)

Section PageCheckSteps.

Lemma bind_returns_inv {A B} (m : M A) (k : A -> M B) (st st' : Locals) (b : B) :
  bind m k st = (st', Returns b) ->
  exists a st1, m st = (st1, Returns a) /\ k a st1 = (st', Returns b).
Proof.
  unfold bind. destruct (m st) as [st1 [a|e]]; [eauto|discriminate].
Qed.

Lemma call_returns_inv {A} (ev : Event) (r : Outcome A) (st st' : Locals) (a : A) :
  call ev r st = (st', Returns a) -> r = Returns a /\ st' = logEvent ev st.
Proof.
  unfold call. destruct r; [|discriminate]. now intros [= <- <-].
Qed.

(** The [waitFor] loop, step by step: it always returns. *)
Lemma waitForLoop_run (env : Env) (selectors : list string) :
  forall st,
    waitForLoop env selectors st
    = (mkLocals
         (trace st
          ++ map EvWaitForSelector
                 (List.filter (fun s => negb (isThrow (waitForSelectorR env s)))
                              selectors))
         (l_errors st) (l_warnings st ++ waitWarnings env selectors)
         (l_screenshot st) (l_screenshots st),
       Returns tt).
Proof.
  induction selectors as [|s rest IH]; intros st.
  - cbn. rewrite !app_nil_r. now destruct st.
  - cbn [waitForLoop]. unfold bind at 1, tryCatch, call.
    unfold waitWarnings in *. cbn [List.filter].
    destruct (waitForSelectorR env s) as [[]|e]; cbn [isThrow negb map];
      unfold pushWarning; lazy beta iota;
      rewrite IH; unfold logEvent, push;
      cbn [trace l_errors l_warnings l_screenshot l_screenshots fst snd];
      now rewrite <- ?app_assoc.
Qed.

(** The [requiredSelectors] loop when no query throws. *)
Lemma requiredLoop_run (env : Env) (selectors : list string) :
  Forall (fun s => isThrow (queryR env s) = false) selectors ->
  forall st,
    requiredLoop env selectors st
    = (mkLocals (trace st ++ map EvQuery selectors)
                (l_errors st ++ missingErrors env selectors) (l_warnings st)
                (l_screenshot st) (l_screenshots st),
       Returns tt).
Proof.
  induction 1 as [|s rest Hs Hrest IH]; intros st.
  - cbn. rewrite !app_nil_r. now destruct st.
  - cbn [requiredLoop]. unfold bind at 1, call at 1.
    unfold missingErrors, isMissing in *. cbn [List.filter map].
    destruct (queryR env s) as [[|]|e]; [| |discriminate];
      unfold bind at 1, when, pushError, ret; cbn [negb]; lazy beta iota;
      rewrite IH; unfold logEvent, push;
      cbn [trace l_errors l_warnings l_screenshot l_screenshots map];
      now rewrite <- ?app_assoc.
Qed.

(** The [requiredSelectors] loop up to the first query that throws. *)
Lemma requiredLoop_throw (env : Env) (pre : list string) (s : string)
    (post : list string) (e : Thrown) :
  Forall (fun s => isThrow (queryR env s) = false) pre ->
  queryR env s = Throws e ->
  forall st,
    requiredLoop env (pre ++ s :: post) st
    = (mkLocals (trace st ++ map EvQuery pre)
                (l_errors st ++ missingErrors env pre) (l_warnings st)
                (l_screenshot st) (l_screenshots st),
       Throws e).
Proof.
  intros Hpre Hs. induction Hpre as [|x rest Hx Hrest IH]; intros st.
  - cbn. unfold bind, call. rewrite Hs, !app_nil_r. now destruct st.
  - cbn [requiredLoop app]. unfold bind at 1, call at 1.
    unfold missingErrors, isMissing in *. cbn [List.filter map].
    destruct (queryR env x) as [[|]|e']; [| |discriminate];
      unfold bind at 1, when, pushError, ret; cbn [negb]; lazy beta iota;
      rewrite IH; unfold logEvent, push;
      cbn [trace l_errors l_warnings l_screenshot l_screenshots map];
      now rewrite <- ?app_assoc.
Qed.

(** X1: waiting for the [waitFor] selectors never fails a job: the loop
    always returns, adds no error, and adds one warning, in order, for each
    selector whose wait throws. *)
Theorem waitFor_only_warns (env : Env) (selectors : list string) (st : Locals) :
  snd (waitForLoop env selectors st) = Returns tt
  /\ l_errors (fst (waitForLoop env selectors st)) = l_errors st
  /\ l_warnings (fst (waitForLoop env selectors st))
     = l_warnings st
       ++ map (fun s => "waitFor selector not visible within 30s: " +:+ s)
              (List.filter (fun s => isThrow (waitForSelectorR env s)) selectors)
  /\ l_screenshots (fst (waitForLoop env selectors st)) = l_screenshots st.
Proof. rewrite waitForLoop_run. repeat split; reflexivity. Qed.

(** X2: the required selectors are queried in order; as long as no query
    throws, each missing one adds "Missing selector: <selector>" and the
    loop goes on to the next; the first query that throws ends the loop with
    that exception, the selectors after it are not queried, and the errors
    recorded so far are kept. *)
Theorem required_selectors_report (env : Env) (pre : list string) (st : Locals) :
  Forall (fun s => isThrow (queryR env s) = false) pre ->
  (snd (requiredLoop env pre st) = Returns tt
   /\ l_errors (fst (requiredLoop env pre st))
      = l_errors st
        ++ map (fun s => "Missing selector: " +:+ s)
               (List.filter (isMissing env) pre)
   /\ List.filter isPostLoad (trace (fst (requiredLoop env pre st)))
      = List.filter isPostLoad (trace st) ++ map EvQuery pre)
  /\ (forall s post e,
        queryR env s = Throws e ->
        snd (requiredLoop env (pre ++ s :: post) st) = Throws e
        /\ fst (requiredLoop env (pre ++ s :: post) st)
           = fst (requiredLoop env pre st)).
Proof.
  intros Hpre. split.
  - rewrite (requiredLoop_run env pre Hpre).
    cbn [fst snd trace l_errors]. repeat split; try reflexivity.
    rewrite List.filter_app. f_equal.
    clear. induction pre as [|x pre IH]; cbn; [reflexivity|now rewrite IH].
  - intros s post e Hs.
    rewrite (requiredLoop_throw env pre s post e Hpre Hs),
      (requiredLoop_run env pre Hpre).
    split; reflexivity.
Qed.

Lemma prefix_append (p s : string) : String.prefix p (p +:+ s) = true.
Proof.
  induction p as [|c p IH]; simpl; [now destruct s|].
  destruct (ascii_dec c c); [exact IH|congruence].
Qed.

Lemma includes_cons (p : string) (c : ascii) (s : string) :
  includes p s = true -> includes p (String c s) = true.
Proof.
  intros H. cbn [includes]. rewrite H. apply orb_true_r.
Qed.

(** [includes] finds a pattern wherever it occurs. *)
Lemma includes_inside (p pre post : string) :
  includes p (pre +:+ p +:+ post) = true.
Proof.
  induction pre as [|c pre IH].
  - change (EmptyString +:+ p +:+ post) with (p +:+ post).
    assert (Hstep : forall s, String.prefix p s = true -> includes p s = true)
      by (intros s Hs; destruct s; cbn [includes]; now rewrite Hs).
    apply Hstep, prefix_append.
  - change (String c pre +:+ p +:+ post) with (String c (pre +:+ p +:+ post)).
    now apply includes_cons.
Qed.

Lemma someIncludes_inside (patterns : list string) (p pre post : string) :
  In p patterns -> someIncludes patterns (pre +:+ p +:+ post) = true.
Proof.
  intros Hin. unfold someIncludes. apply existsb_exists.
  exists p. split; [assumption|apply includes_inside].
Qed.

(** X3: the network observer drops every response and every failed request
    whose URL contains one of the ignore patterns anywhere, whatever the
    status; it also drops every response with a status below 400. *)
Theorem network_observer_ignores (acc : list string) (pattern pre post : string)
    (status : Z) :
  In pattern ignorePatterns ->
  onNetworkFailures acc (Response status (pre +:+ pattern +:+ post)) = acc
  /\ onNetworkFailures acc (RequestFailed (pre +:+ pattern +:+ post)) = acc
  /\ (forall low u,
        low < 400 -> onNetworkFailures acc (Response low u) = acc).
Proof.
  intros Hin. cbn [onNetworkFailures]. unfold shouldIgnoreUrl.
  rewrite (someIncludes_inside ignorePatterns pattern pre post Hin).
  cbn [negb]. rewrite andb_false_r. repeat split; try reflexivity.
  intros low u Hlow. destruct (Z.leb_spec 400 low); [lia|reflexivity].
Qed.

(** X4: the console observer records a console message only when its type
    is "error", and drops every console message and every page error whose
    text contains one of the generic patterns anywhere. *)
Theorem console_observer_ignores (acc : list string) (pattern pre post : string)
    (type : string) :
  In pattern genericErrorPatterns ->
  onConsoleErrors acc (Console type (pre +:+ pattern +:+ post)) = acc
  /\ onConsoleErrors acc (PageError (pre +:+ pattern +:+ post)) = acc
  /\ (forall text,
        onConsoleErrors acc (Console type text)
        = if String.eqb type "error" && negb (shouldIgnoreConsoleError text)
          then acc ++ [text] else acc)
  /\ (forall text,
        String.eqb type "error" = false ->
        onConsoleErrors acc (Console type text) = acc).
Proof.
  intros Hin. cbn [onConsoleErrors]. unfold shouldIgnoreConsoleError.
  rewrite (someIncludes_inside genericErrorPatterns pattern pre post Hin).
  cbn [negb]. rewrite andb_false_r. repeat split; try reflexivity.
  intros text Hty. now rewrite Hty.
Qed.

End PageCheckSteps.

(** ** What a result tells about the page check *)

Section ResultMeaning.

Lemma splitLoop_length (env : Env) (u d dir : string) (H p n : Z) :
  forall (k : nat) (i : Z) (acc : list string) (st st' : Locals)
         (l : list string),
    splitLoop env u d dir H p n k i acc st = (st', Returns l) ->
    length l = (length acc + k)%nat.
Proof.
  induction k as [|k IH]; intros i acc st st' l; cbn [splitLoop].
  - intros [= _ <-]. lia.
  - intros Hrun. apply bind_returns_inv in Hrun as (a & st1 & _ & Hrun).
    apply IH in Hrun. unfold push in Hrun. rewrite length_app in Hrun.
    cbn in Hrun. lia.
Qed.

(** Under a positive limit the partitioner never returns an empty list. *)
Lemma capture_returns_nonempty (env : Env) (u d : string) (M : Z)
    (dir : string) (st st' : Locals) (l : list string) :
  0 < M ->
  captureMultiPartScreenshots env u d M dir st = (st', Returns l) ->
  l <> [].
Proof.
  intros HM. unfold captureMultiPartScreenshots. intros Hrun.
  apply bind_returns_inv in Hrun as (H & st1 & _ & Hrun).
  destruct (Z.leb_spec H M) as [Hle|Hgt].
  - apply bind_returns_inv in Hrun as (a & st2 & _ & Hrun).
    injection Hrun as _ <-. discriminate.
  - apply bind_returns_inv in Hrun as (a & st2 & _ & Hrun).
    apply bind_returns_inv in Hrun as (a' & st3 & _ & Hrun).
    apply bind_returns_inv in Hrun as (shots & st4 & Hloop & Hrun).
    apply bind_returns_inv in Hrun as (a'' & st5 & _ & Hrun).
    injection Hrun as _ <-.
    apply splitLoop_length in Hloop.
    destruct (parts_facts H M HM Hgt) as (Hn & _).
    intros ->. cbn in Hloop. lia.
Qed.

(** When the capture block returns under a positive limit, a screenshot name
    is recorded. *)
Lemma takeScreenshots_returns_sets (env : Env) (url : string)
    (device : DeviceName) (config : PageConfig) (outputDir : string)
    (st st' : Locals) :
  positiveLimit config ->
  takeScreenshots env url device config outputDir st = (st', Returns tt) ->
  l_screenshot st' <> None.
Proof.
  unfold positiveLimit, takeScreenshots. intros Hlimit.
  assert (Hsingle : forall full,
    (call (EvScreenshot
             (path_join outputDir
                (singleName (urlToSlug env url) (deviceToSlug device))) full)
          (screenshotR env
             (path_join outputDir
                (singleName (urlToSlug env url) (deviceToSlug device)))) ;;
     setScreenshot (Some (singleName (urlToSlug env url) (deviceToSlug device))) ;;
     setScreenshots [singleName (urlToSlug env url) (deviceToSlug device)]) st
    = (st', Returns tt) -> l_screenshot st' <> None).
  { intros full Hrun.
    apply bind_returns_inv in Hrun as (a & st1 & _ & Hrun).
    apply bind_returns_inv in Hrun as (a' & st2 & Hset & Hrun).
    injection Hset as <-. injection Hrun as <-. discriminate. }
  destruct (fullPage config); [|apply Hsingle].
  destruct (maxScreenshotHeight config) as [M|]; [|apply Hsingle].
  intros Hrun.
  apply bind_returns_inv in Hrun as (shots & st1 & Hcap & Hrun).
  apply bind_returns_inv in Hrun as (a & st2 & Hset & Hrun).
  injection Hset as <-. injection Hrun as <-. cbn.
  apply capture_returns_nonempty in Hcap; [|exact Hlimit].
  destruct shots; [congruence|discriminate].
Qed.

Lemma throwsKeep_yields {A} (m : M A) (Q : A -> Prop) :
  yields m Q -> throwsKeep m.
Proof.
  intros Hm st st' e Hrun. destruct (Hm st) as (E1 & E2 & _).
  rewrite Hrun in E1, E2. auto.
Qed.

Lemma throwsKeep_bind {A B} (m : M A) (k : A -> M B) (Q : A -> Prop) :
  yields m Q -> (forall a, throwsKeep (k a)) -> throwsKeep (bind m k).
Proof.
  intros Hm Hk st st' e. unfold bind.
  destruct (Hm st) as (E1 & E2 & _).
  destruct (m st) as [st1 [a|e1]]; cbn [fst] in *.
  - intros Hrun. destruct (Hk a st1 st' e Hrun) as [F1 F2].
    now rewrite F1, F2.
  - intros [= <- <-]. auto.
Qed.

Lemma throwsKeep_takeScreenshots (env : Env) (url : string)
    (device : DeviceName) (config : PageConfig) (outputDir : string) :
  throwsKeep (takeScreenshots env url device config outputDir).
Proof.
  assert (Hsingle : forall full name,
    throwsKeep
      (call (EvScreenshot (path_join outputDir name) full)
            (screenshotR env (path_join outputDir name)) ;;
       setScreenshot (Some name) ;; setScreenshots [name])).
  { intros full name st st' e. unfold bind, call.
    destruct (screenshotR env _) as [[]|e1]; cbn; [discriminate|].
    intros [= <- <-]. auto. }
  unfold takeScreenshots.
  destruct (fullPage config); [|apply Hsingle].
  destruct (maxScreenshotHeight config) as [M|]; [|apply Hsingle].
  intros st st' e. unfold bind at 1.
  destruct (yields_capture env (urlToSlug env url) (deviceToSlug device) M
              outputDir st) as (E1 & E2 & _).
  destruct (captureMultiPartScreenshots _ _ _ _ _ st) as [st1 [l|e1]];
    cbn [fst] in *.
  - cbn. discriminate.
  - intros [= <- <-]. auto.
Qed.

Lemma throwsKeep_tryBody (env : Env) (url : string) (device : DeviceName)
    (config : PageConfig) (outputDir : string) :
  throwsKeep (tryBody env url device config outputDir).
Proof.
  unfold tryBody.
  eapply throwsKeep_bind; [apply yields_getDeviceOptions|intros opts].
  eapply throwsKeep_bind; [apply yields_call|intros _].
  eapply throwsKeep_bind; [apply yields_call|intros _].
  eapply throwsKeep_bind; [apply yields_call|intros response].
  intros st st' e. unfold bind at 1.
  set (middle := if badStatus response then pushError (statusError response)
                 else postLoad env url device config outputDir).
  assert (Hmid : throwsKeep middle).
  { subst middle. destruct (badStatus response);
      [eapply throwsKeep_yields, yields_pushError|].
    unfold postLoad.
    eapply throwsKeep_bind; [apply yields_waitForLoop|intros _].
    eapply throwsKeep_bind; [apply yields_when, yields_call|intros _].
    eapply throwsKeep_bind; [apply yields_call|intros _].
    eapply throwsKeep_bind; [apply yields_when, yields_pushError|intros _].
    eapply throwsKeep_bind; [apply yields_when, yields_pushError|intros _].
    eapply throwsKeep_bind; [apply yields_requiredLoop|intros _].
    eapply throwsKeep_bind; [apply yields_when, yields_pushWarning|intros _].
    apply throwsKeep_takeScreenshots. }
  specialize (Hmid st).
  destruct (middle st) as [st1 [[]|e1]].
  - cbn. discriminate.
  - intros [= <- <-]. now apply (Hmid st1 e1).
Qed.


(** X6: a passing result means that navigation returned a response with
    status 200 and that the [try] body ran to its end; when the height limit
    is absent or positive it also carries a screenshot name. *)
Theorem pass_means_loaded_and_captured (env : Env) (url : string)
    (device : DeviceName) (config : PageConfig) (outputDir : string) :
  success (checkPage env url device config outputDir) = true ->
  gotoR env = Returns (Some 200)
  /\ snd (tryBody env url device config outputDir initialLocals) = Returns tt
  /\ (positiveLimit config ->
      screenshot (checkPage env url device config outputDir) <> None).
Proof.
  unfold checkPage, checkPageRun, tryCatch.
  destruct (tryBody env url device config outputDir initialLocals)
    as [st' [[]|e]] eqn:Hbody.
  2:{ intros Hok. exfalso. cbn in Hok.
      assert (Hlen : length (l_errors (fst (catchClause e st'))) <> 0%nat).
      { destruct e as [message|]; cbn; [destruct (includes _ _)|]; cbn;
          unfold push; rewrite length_app; cbn; lia. }
      destruct (length (l_errors (fst (catchClause e st')))); [congruence|].
      discriminate. }
  cbn [fst snd resultOf success screenshot]. intros Hok.
  unfold tryBody in Hbody.
  apply bind_returns_inv in Hbody as (opts & st0 & _ & Hbody).
  apply bind_returns_inv in Hbody as (a1 & st1 & _ & Hbody).
  apply bind_returns_inv in Hbody as (a2 & st2 & _ & Hbody).
  apply bind_returns_inv in Hbody as (response & st3 & Hgoto & Hbody).
  apply bind_returns_inv in Hbody as (a3 & st4 & Hmid & Hclose).
  apply call_returns_inv in Hgoto as [Hgoto _].
  apply call_returns_inv in Hclose as [_ ->].
  cbn [logEvent l_errors l_screenshot] in *.
  destruct (badStatus response) eqn:Hbad.
  { exfalso. injection Hmid as <-. cbn in Hok. unfold push in Hok.
    rewrite length_app in Hok. cbn in Hok.
    destruct (length (l_errors st3)); discriminate. }
  assert (response = Some 200) as ->.
  { destruct response as [status|]; [|discriminate]. cbn in Hbad.
    destruct (Z.eqb_spec status 200); [congruence|discriminate]. }
  repeat split; [exact Hgoto|].
  intros Hlimit. unfold postLoad in Hmid.
  do 7 (apply bind_returns_inv in Hmid as (? & ? & _ & Hmid)).
  destruct a3. now apply takeScreenshots_returns_sets in Hmid.
Qed.

End ResultMeaning.

(** ** The page check when every call returns *)

Section NormalPath.

Lemma returns_tt (r : Outcome unit) : isThrow r = false -> r = Returns tt.
Proof. destruct r as [[]|e]; [reflexivity|discriminate]. Qed.

(** One step of a sequence whose first computation returns. *)
Lemma bind_step {A B} (m : M A) (k : A -> M B) (st st1 : Locals) (a : A) :
  m st = (st1, Returns a) -> bind m k st = k a st1.
Proof. intros H. unfold bind. now rewrite H. Qed.

Lemma bind_assoc {A B C} (m : M A) (k : A -> M B) (k' : B -> M C)
    (st : Locals) :
  bind (bind m k) k' st = bind m (fun a => bind (k a) k') st.
Proof. unfold bind. now destruct (m st) as [st1 [a|e]]. Qed.

Lemma call_ok {A} (ev : Event) (r : Outcome A) (a : A) (st : Locals) :
  r = Returns a -> call ev r st = (logEvent ev st, Returns a).
Proof. intros ->. reflexivity. Qed.

(** When every capture call returns, the partitioner returns and leaves the
    errors and warnings alone. *)
Lemma capture_ok (env : Env) (u d : string) (M : Z) (dir : string)
    (st : Locals) :
  isThrow (dimensionsR env) = false ->
  (forall path, screenshotR env path = Returns tt) ->
  jimpReadR env = Returns tt ->
  (forall i, cropWriteR env i = Returns tt) ->
  exists st' l,
    captureMultiPartScreenshots env u d M dir st = (st', Returns l)
    /\ l_errors st' = l_errors st /\ l_warnings st' = l_warnings st.
Proof.
  intros Hdim Hshot Hread Hcrop.
  destruct (dimensionsR env) as [H|e] eqn:HH; [|discriminate].
  unfold captureMultiPartScreenshots.
  rewrite (bind_step _ _ _ _ _ (call_ok EvMeasure _ H st HH)).
  destruct (H <=? M).
  - rewrite (bind_step _ _ _ _ _ (call_ok _ _ tt _ (Hshot _))).
    eexists _, _. split; [reflexivity|]. split; reflexivity.
  - cbv zeta.
    rewrite (bind_step _ _ _ _ _ (call_ok _ _ tt _ (Hshot _))).
    rewrite (bind_step _ _ _ _ _ (call_ok _ _ tt _ Hread)).
    rewrite (bind_step _ _ _ _ _
               (splitLoop_all_written env u d dir H _ _ Hcrop _ _ _ _)).
    rewrite (bind_step _ _ _ _ _ (call_ok _ _ tt _ eq_refl)).
    eexists _, _. split; [reflexivity|]. split; reflexivity.
Qed.

(** When every capture call returns, the capture block returns and leaves
    the errors and warnings alone. *)
Lemma takeScreenshots_ok (env : Env) (url : string) (device : DeviceName)
    (config : PageConfig) (outputDir : string) (st : Locals) :
  isThrow (dimensionsR env) = false ->
  (forall path, isThrow (screenshotR env path) = false) ->
  isThrow (jimpReadR env) = false ->
  (forall i, isThrow (cropWriteR env i) = false) ->
  exists st',
    takeScreenshots env url device config outputDir st = (st', Returns tt)
    /\ l_errors st' = l_errors st /\ l_warnings st' = l_warnings st.
Proof.
  intros Hdim Hshot Hread Hcrop.
  assert (Hshot' : forall path, screenshotR env path = Returns tt)
    by (intros; apply returns_tt, Hshot).
  assert (Hcrop' : forall i, cropWriteR env i = Returns tt)
    by (intros; apply returns_tt, Hcrop).
  apply returns_tt in Hread.
  unfold takeScreenshots.
  assert (Hsingle : forall full name,
    exists st',
      (call (EvScreenshot (path_join outputDir name) full)
            (screenshotR env (path_join outputDir name)) ;;
       setScreenshot (Some name) ;; setScreenshots [name]) st
      = (st', Returns tt)
      /\ l_errors st' = l_errors st /\ l_warnings st' = l_warnings st).
  { intros full name. unfold bind, call. rewrite Hshot'.
    eexists. split; [reflexivity|]. split; reflexivity. }
  destruct (fullPage config); [|apply Hsingle].
  destruct (maxScreenshotHeight config) as [M|]; [|apply Hsingle].
  destruct (capture_ok env (urlToSlug env url) (deviceToSlug device) M
              outputDir st Hdim Hshot' Hread Hcrop')
    as (st1 & l & Hcap & He & Hw).
  rewrite (bind_step _ _ _ _ _ Hcap).
  eexists. split; [reflexivity|]. cbn. auto.
Qed.

Lemma when_call_ok (b : bool) (ev : Event) (r : Outcome unit) (st : Locals) :
  r = Returns tt ->
  exists st1,
    when b (call ev r) st = (st1, Returns tt)
    /\ l_errors st1 = l_errors st /\ l_warnings st1 = l_warnings st.
Proof.
  intros ->. destruct b; eexists; (split; [reflexivity|split; reflexivity]).
Qed.

Lemma when_pushError_ok (b : bool) (msg : string) (st : Locals) :
  exists st1,
    when b (pushError msg) st = (st1, Returns tt)
    /\ l_errors st1 = l_errors st ++ (if b then [msg] else [])
    /\ l_warnings st1 = l_warnings st.
Proof.
  destruct b; eexists; (split; [reflexivity|]); cbn;
    rewrite ?app_nil_r; split; reflexivity.
Qed.

Lemma when_pushWarning_ok (b : bool) (msg : string) (st : Locals) :
  exists st1,
    when b (pushWarning msg) st = (st1, Returns tt)
    /\ l_errors st1 = l_errors st
    /\ l_warnings st1 = l_warnings st ++ (if b then [msg] else []).
Proof.
  destruct b; eexists; (split; [reflexivity|]); cbn;
    rewrite ?app_nil_r; split; reflexivity.
Qed.

(** X7: when navigation answers 200 and no call other than a [waitFor] wait
    throws, every content check runs and capture follows whatever they found:
    the errors are the console finding, the network finding and one entry
    per missing required selector, in that order; the warnings are those of
    the [waitFor] waits and of a slow load; and, the limit being absent or
    positive, a screenshot name is recorded even when errors were found.
    This holds for every device name, known or not. *)
Theorem findings_do_not_stop_capture (env : Env) (url : string)
    (device : DeviceName) (config : PageConfig) (outputDir : string) :
  isThrow (newContextR env) = false ->
  isThrow (newPageR env) = false ->
  gotoR env = Returns (Some 200) ->
  isThrow (scrollR env) = false ->
  isThrow (waitForTimeoutR env) = false ->
  Forall (fun s => isThrow (queryR env s) = false) (requiredSelectors config) ->
  isThrow (dimensionsR env) = false ->
  (forall path, isThrow (screenshotR env path) = false) ->
  isThrow (jimpReadR env) = false ->
  (forall i, isThrow (cropWriteR env i) = false) ->
  positiveLimit config ->
  let r := checkPage env url device config outputDir in
  errors r
  = consoleFinding env ++ networkFinding env
    ++ missingErrors env (requiredSelectors config)
  /\ warnings r = waitWarnings env (waitFor config) ++ slowWarning env
  /\ screenshot r <> None
  /\ snd (tryBody env url device config outputDir initialLocals) = Returns tt.
Proof.
  intros Hctx Hpage Hgoto Hscroll Hsettle Hquery Hdim Hshot Hread Hcrop
         Hlimit r.
  apply returns_tt in Hctx, Hpage, Hscroll, Hsettle.
  assert (Hbody : exists st',
    tryBody env url device config outputDir initialLocals = (st', Returns tt)
    /\ l_errors st'
       = consoleFinding env ++ networkFinding env
         ++ missingErrors env (requiredSelectors config)
    /\ l_warnings st' = waitWarnings env (waitFor config) ++ slowWarning env
    /\ l_screenshot st' <> None).
  { unfold tryBody.
    destruct (getDeviceOptions_run env device initialLocals)
      as (pre & opts & Hdev & _).
    rewrite (bind_step _ _ _ _ _ Hdev).
    rewrite (bind_step _ _ _ _ _ (call_ok _ _ tt _ Hctx)).
    rewrite (bind_step _ _ _ _ _ (call_ok _ _ tt _ Hpage)).
    rewrite (bind_step _ _ _ _ _ (call_ok _ _ (Some 200) _ Hgoto)).
    change (badStatus (Some 200)) with false. cbv iota.
    unfold postLoad. rewrite !bind_assoc.
    rewrite (bind_step _ _ _ _ _ (waitForLoop_run _ _ _)).
    rewrite ?bind_assoc.
    match goal with
    | |- context [bind (when ?b (call ?ev ?r)) ?k ?st] =>
        destruct (when_call_ok b ev r st Hscroll) as (st1 & Hrun1 & He1 & Hw1)
    end.
    rewrite (bind_step _ _ _ _ _ Hrun1).
    rewrite ?bind_assoc.
    rewrite (bind_step _ _ _ _ _ (call_ok _ _ tt _ Hsettle)).
    cbv zeta.
    rewrite ?bind_assoc.
    match goal with
    | |- context [bind (when ?b (pushError ?msg)) ?k ?st] =>
        destruct (when_pushError_ok b msg st) as (st2 & Hrun2 & He2 & Hw2)
    end.
    rewrite (bind_step _ _ _ _ _ Hrun2).
    rewrite ?bind_assoc.
    match goal with
    | |- context [bind (when ?b (pushError ?msg)) ?k ?st] =>
        destruct (when_pushError_ok b msg st) as (st3 & Hrun3 & He3 & Hw3)
    end.
    rewrite (bind_step _ _ _ _ _ Hrun3).
    rewrite ?bind_assoc.
    rewrite (bind_step _ _ _ _ _ (requiredLoop_run env _ Hquery st3)).
    rewrite ?bind_assoc.
    match goal with
    | |- context [bind (when ?b (pushWarning ?msg)) ?k ?st] =>
        destruct (when_pushWarning_ok b msg st) as (st4 & Hrun4 & He4 & Hw4)
    end.
    rewrite (bind_step _ _ _ _ _ Hrun4).
    rewrite ?bind_assoc.
    destruct (takeScreenshots_ok env url device config outputDir st4
                Hdim Hshot Hread Hcrop) as (st5 & Hrun5 & He5 & Hw5).
    rewrite (bind_step _ _ _ _ _ Hrun5).
    rewrite (call_ok _ _ tt _ eq_refl).
    eexists. split; [reflexivity|].
    cbn [logEvent l_errors l_warnings l_screenshot].
    rewrite He5, Hw5, He4, Hw4. cbn [l_errors l_warnings].
    rewrite He3, Hw3, He2, Hw2. cbn [logEvent l_errors l_warnings].
    rewrite He1, Hw1. cbn [logEvent initialLocals l_errors l_warnings app].
    split; [|split].
    - unfold consoleFinding, networkFinding.
      rewrite <- !app_assoc. repeat f_equal;
        match goal with
        | |- context [Nat.eqb ?n 0] => destruct (Nat.eqb n 0); reflexivity
        end.
    - unfold slowWarning. now destruct (5000 <? navigationTime env).
    - exact (takeScreenshots_returns_sets env url device config outputDir
               st4 st5 Hlimit Hrun5). }
  destruct Hbody as (st' & Hbody & He & Hw & Hs).
  subst r. unfold checkPage, checkPageRun, tryCatch. rewrite Hbody.
  cbn. auto.
Qed.

End NormalPath.

(** ** A height limit below zero *)

Section NegativeLimit.

Lemma ceilDiv_negative_limit (H M : Z) : 0 <= H -> M < 0 -> ceilDiv H M <= 0.
Proof.
  intros HH HM. unfold ceilDiv.
  replace M with (- (- M)) by lia.
  rewrite Z.div_opp_opp by lia.
  pose proof (Z.div_pos H (- M) HH ltac:(lia)). lia.
Qed.

(** X8: with [fullPage] on and a negative height limit, capture takes the
    full screenshot, crops no band, deletes the full screenshot again and
    returns normally with no screenshot recorded and no error added. *)
Theorem negative_limit_captures_nothing (env : Env) (url : string)
    (device : DeviceName) (config : PageConfig) (outputDir : string)
    (st : Locals) (M H : Z) :
  fullPage config = true ->
  maxScreenshotHeight config = Some M ->
  M < 0 ->
  dimensionsR env = Returns H ->
  0 <= H ->
  (forall path, screenshotR env path = Returns tt) ->
  jimpReadR env = Returns tt ->
  let temp := path_join outputDir
                        ("temp-full-" +:+ showInt (now env) +:+ ".png") in
  let run := takeScreenshots env url device config outputDir st in
  snd run = Returns tt
  /\ l_screenshot (fst run) = None
  /\ l_screenshots (fst run) = []
  /\ l_errors (fst run) = l_errors st
  /\ trace (fst run)
     = trace st ++ [EvMeasure; EvScreenshot temp true; EvJimpRead temp;
                    EvUnlink temp].
Proof.
  intros Hfull Hmax HM Hdim HH Hshot Hread temp run.
  subst run. unfold takeScreenshots. rewrite Hfull, Hmax.
  assert (Hcap :
    captureMultiPartScreenshots env (urlToSlug env url) (deviceToSlug device)
                                M outputDir st
    = (mkLocals (trace st ++ [EvMeasure; EvScreenshot temp true;
                              EvJimpRead temp; EvUnlink temp])
                (l_errors st) (l_warnings st) (l_screenshot st)
                (l_screenshots st), Returns [])).
  { unfold captureMultiPartScreenshots.
    rewrite (bind_step _ _ _ _ _ (call_ok EvMeasure _ H st Hdim)).
    destruct (Z.leb_spec H M) as [Hle|_]; [lia|].
    cbv zeta. fold temp.
    rewrite (bind_step _ _ _ _ _ (call_ok _ _ tt _ (Hshot _))).
    rewrite (bind_step _ _ _ _ _ (call_ok _ _ tt _ Hread)).
    pose proof (ceilDiv_negative_limit H M HH HM) as Hn.
    replace (Z.to_nat (ceilDiv H M)) with 0%nat by lia.
    cbn [splitLoop]. unfold bind, call, ret, logEvent; cbn.
    now rewrite <- !app_assoc. }
  rewrite (bind_step _ _ _ _ _ Hcap).
  unfold bind, setScreenshots, setScreenshot; cbn.
  repeat split; reflexivity.
Qed.

End NegativeLimit.

(** ** More on the scheduler and the report *)

Section SchedulerMore.

Variable envs : nat -> Env.
Variable outputDir : string.

Lemma through_length_le (l : list (PageJob * PageResult)) :
  (length (throughFirstCritical l) <= length l)%nat.
Proof.
  induction l as [|[job result] l IH]; cbn [throughFirstCritical length];
    [lia|].
  destruct (critical job result); cbn [length]; lia.
Qed.

Lemma through_length_pos (l : list (PageJob * PageResult)) :
  l <> [] -> (1 <= length (throughFirstCritical l))%nat.
Proof.
  destruct l as [|[job result] l]; [congruence|].
  intros _. cbn [throughFirstCritical length]. lia.
Qed.

Lemma through_no_critical (l : list (PageJob * PageResult)) :
  anyCritical l = false -> throughFirstCritical l = map snd l.
Proof.
  unfold anyCritical.
  induction l as [|[job result] l IH]; cbn [throughFirstCritical existsb map
                                               fst snd]; [reflexivity|].
  destruct (critical job result); cbn [orb]; [discriminate|].
  intros Hl. now rewrite IH.
Qed.

Lemma through_has_failure (l : list (PageJob * PageResult)) :
  anyCritical l = true ->
  exists r, In r (throughFirstCritical l) /\ success r = false.
Proof.
  unfold anyCritical.
  induction l as [|[job result] l IH]; cbn [throughFirstCritical existsb
                                               fst snd]; [discriminate|].
  destruct (critical job result) eqn:Hc; cbn [orb].
  - intros _. exists result. split; [now left|].
    unfold critical in Hc. apply andb_prop in Hc as [Hc _].
    now destruct (success result).
  - intros Hl. destruct (IH Hl) as (r & Hin & Hr).
    exists r. split; [now right|assumption].
Qed.

Lemma slice_length_pos {A} (i w : nat) (l : list A) :
  (0 < w)%nat -> (i < length l)%nat -> (1 <= length (slice i w l) <= w)%nat.
Proof.
  intros Hw Hi. unfold slice. rewrite length_firstn, length_skipn. lia.
Qed.

Lemma batchLoop_launched (w : nat) (jobs : list PageJob) :
  (0 < w)%nat ->
  forall (fuel i : nat) (st st' : Sched),
    aborted st = false ->
    launched st = firstn i jobs ->
    length (results st) = length (firstn i jobs) ->
    batchLoop envs outputDir fuel w jobs i st = Some st' ->
    (exists n, launched st' = firstn n jobs)
    /\ (length (results st') <= length (launched st'))%nat
    /\ (length (launched st') < length (results st') + w)%nat
    /\ (aborted st' = false -> launched st' = jobs).
Proof.
  intros Hw.
  assert (Hend : forall i st,
             (length jobs <= i)%nat ->
             launched st = firstn i jobs ->
             length (results st) = length (firstn i jobs) ->
             (exists n, launched st = firstn n jobs)
             /\ (length (results st) <= length (launched st))%nat
             /\ (length (launched st) < length (results st) + w)%nat
             /\ (aborted st = false -> launched st = jobs)).
  { intros i st Hi Hl Hr. rewrite Hr, Hl. repeat split; eauto; try lia.
    intros _. now apply firstn_all2. }
  induction fuel as [|fuel IH]; intros i st st' Hab Hl Hr; cbn [batchLoop].
  - destruct (Nat.ltb_spec i (length jobs)); [discriminate|].
    intros [= <-]. now apply (Hend i).
  - destruct (Nat.ltb_spec i (length jobs)) as [Hlt|Hge];
      [|intros [= <-]; now apply (Hend i)].
    destruct st as [res ab la]. cbn [aborted results launched] in *.
    subst ab la.
    set (batch := slice i w jobs).
    set (runs := combine batch
                   (imap (fun j job => runJob envs outputDir (i + j) job) batch)).
    set (st1 := mkSched res false (firstn i jobs ++ batch)).
    destruct (scanBatch_results runs st1) as (Hres & Habort & Hla).
    cbn [results aborted launched st1 orb] in Hres, Habort, Hla.
    assert (Hruns : length runs = length batch).
    { subst runs. rewrite length_combine, length_imap. lia. }
    pose proof (slice_length_pos i w jobs Hw Hlt) as Hbatch. fold batch in Hbatch.
    assert (Htake : firstn i jobs ++ batch = firstn (i + w) jobs)
      by (subst batch; unfold slice; apply take_take_drop).
    pose proof (through_length_le runs) as Hle.
    destruct (anyCritical runs) eqn:Hany.
    + intros Hloop. apply batchLoop_aborted in Hloop; [|exact Habort].
      subst st'. rewrite Hla, Hres, Habort, !length_app.
      assert (1 <= length (throughFirstCritical runs))%nat.
      { apply through_length_pos. intros E. rewrite E in Hruns. cbn in Hruns.
        lia. }
      split; [exists (i + w)%nat; exact Htake|].
      split; [lia|]. split; [lia|discriminate].
    + apply IH; [exact Habort|now rewrite Hla|].
      rewrite Hres, through_no_critical, length_app, length_map, Hruns, <- Htake,
        length_app by exact Hany.
      lia.
Qed.

(** X10: when no job is a failing [abortIfFail] job, every job is launched
    and gets exactly one result, in job order: result [k] is the page check
    of job [k]. *)
Theorem no_critical_runs_every_job (w : nat) (jobs : list PageJob) :
  (0 < w)%nat ->
  anyCritical (allRuns envs outputDir jobs) = false ->
  exists st,
    schedule envs outputDir w jobs = Some st
    /\ results st = imap (runJob envs outputDir) jobs
    /\ launched st = jobs
    /\ aborted st = false.
Proof.
  intros Hw Hany. destruct (schedule_total envs outputDir w jobs Hw) as [st Hst].
  exists st. split; [exact Hst|].
  destruct (batchLoop_results envs outputDir w jobs (S (length jobs)) 0
              (mkSched [] false []) st eq_refl eq_refl eq_refl Hst)
    as [Hres Hab].
  destruct (batchLoop_launched w jobs Hw (S (length jobs)) 0
              (mkSched [] false []) st eq_refl eq_refl eq_refl Hst)
    as (_ & _ & _ & Hla).
  rewrite Hany in Hab. rewrite Hres, through_no_critical by exact Hany.
  repeat split; auto.
  unfold allRuns. rewrite fmap_imap. apply imap_ext. reflexivity.
Qed.

(** X11: the jobs launched are always a prefix of the job list, every result
    belongs to a launched job, and fewer than [w] launched jobs are left
    without a result: an abort drops at most the rest of its own batch. *)
Theorem launched_prefix_bound (w : nat) (jobs : list PageJob) :
  (0 < w)%nat ->
  exists st n,
    schedule envs outputDir w jobs = Some st
    /\ launched st = firstn n jobs
    /\ (length (results st) <= length (launched st))%nat
    /\ (length (launched st) < length (results st) + w)%nat.
Proof.
  intros Hw. destruct (schedule_total envs outputDir w jobs Hw) as [st Hst].
  destruct (batchLoop_launched w jobs Hw (S (length jobs)) 0
              (mkSched [] false []) st eq_refl eq_refl eq_refl Hst)
    as ([n Hn] & Hle & Hlt & _).
  exists st, n. auto.
Qed.

Lemma filter_split_length (f : PageResult -> bool) (rs : list PageResult) :
  (length (List.filter f rs) + length (List.filter (fun r => negb (f r)) rs)
   = length rs)%nat.
Proof.
  induction rs as [|r rs IH]; cbn; [reflexivity|].
  destruct (f r); cbn; lia.
Qed.

(** X12: in the summary, passed and failed add up to the jobs checked, the
    failures listed are as many as the failed count, and the exit code is 0
    exactly when every result succeeded, and 1 otherwise. *)
Theorem summary_counts (rs : list PageResult) :
  (passed (summary rs) + failed (summary rs) = checked (summary rs))%nat
  /\ length (failures (summary rs)) = failed (summary rs)
  /\ (exitCode (summary rs) = 0 <-> Forall (fun r => success r = true) rs)
  /\ (exitCode (summary rs) = 0 \/ exitCode (summary rs) = 1).
Proof.
  unfold summary; cbn [passed failed checked failures exitCode].
  split; [apply filter_split_length|]. split; [reflexivity|].
  assert (Hzero : length (List.filter (fun r => negb (success r)) rs) = 0%nat
                  <-> Forall (fun r => success r = true) rs).
  { induction rs as [|r rs IH]; cbn.
    - split; [constructor|reflexivity].
    - destruct (success r) eqn:Hr; cbn.
      + rewrite IH. split; [now constructor|now inversion 1].
      + split; [discriminate|]. inversion 1; congruence. }
  destruct (length (List.filter (fun r => negb (success r)) rs)) as [|n] eqn:E;
    cbn.
  - split; [|now left]. split; [intros _; now apply Hzero|reflexivity].
  - split; [|now right]. split; [discriminate|].
    intros Hall. apply Hzero in Hall. discriminate.
Qed.

End SchedulerMore.

Section AbortExit.

(** X13: a run that was aborted always reports at least one failure and
    exits with code 1. *)
Theorem aborted_run_exits_nonzero (parsed : ParsedConfig) (envs : nat -> Env)
    (outputDir : string) (st : Sched) (report : Report) :
  main parsed envs outputDir = Some (Finished st report) ->
  aborted st = true ->
  (0 < failed report)%nat /\ exitCode report = 1.
Proof.
  unfold main.
  destruct (parsed_default parsed) as [d|]; [|discriminate].
  destruct (parsed_pages parsed) as [ps|]; [|discriminate].
  destruct (Nat.eqb _ 0); [discriminate|].
  destruct (schedule _ _ _ _) as [st0|] eqn:Hst; [|discriminate].
  intros [= <- <-] Hab.
  destruct (batchLoop_results envs outputDir WORKER_CONCURRENCY _
              (S (length (expandPageJobs (mkConfig d ps)))) 0
              (mkSched [] false []) st0 eq_refl eq_refl eq_refl Hst)
    as [Hres Hany].
  rewrite Hab in Hany. symmetry in Hany.
  destruct (through_has_failure _ Hany) as (r & Hin & Hr).
  rewrite <- Hres in Hin.
  assert (Hpos : (0 < length (List.filter (fun r => negb (success r))
                                          (results st0)))%nat).
  { assert (In r (List.filter (fun r => negb (success r)) (results st0)))
      as Hf by (apply filter_In; split; [assumption|now rewrite Hr]).
    destruct (List.filter _ (results st0)); [contradiction|cbn; lia]. }
  unfold summary; cbn [failed exitCode]. split; [exact Hpos|].
  destruct (length _); [lia|reflexivity].
Qed.

End AbortExit.

(** ** More on the configuration expander *)

Section ExpanderMore.

Lemma mergeConfig_empty (D : PageConfig) : mergeConfig D emptyPartial = D.
Proof. now destruct D. Qed.

(** X14: every job the expander yields comes from a page of the
    configuration: its URL is that page's key, its configuration is the
    page's merged configuration, and its device is one of the devices of the
    configuration it carries. *)
Theorem expanded_job_origin (cfg : Config) (job : PageJob) :
  In job (expandPageJobs cfg) ->
  exists entry,
    In entry (pages cfg)
    /\ url job = fst entry
    /\ config job
       = mergeConfig (_default cfg) (default emptyPartial (snd entry))
    /\ In (device job) (devices (config job)).
Proof.
  rewrite expandPageJobs_flat_map. intros Hin.
  apply in_flat_map in Hin as (entry & Hentry & Hjob).
  unfold jobsOfPage, resolved in Hjob.
  apply in_map_iff in Hjob as (d & <- & Hd).
  exists entry. cbn. auto.
Qed.

(** X15: a page written without settings, or with an empty settings object,
    yields one job per device of the default configuration, each carrying
    the default configuration unchanged. *)
Theorem page_without_settings_uses_default (d : PageConfig) (u : string)
    (ps : list (string * option PartialPageConfig)) :
  expandPageJobs (mkConfig d ((u, None) :: ps))
  = map (fun dev => mkPageJob u dev d) (devices d)
    ++ expandPageJobs (mkConfig d ps)
  /\ expandPageJobs (mkConfig d ((u, Some emptyPartial) :: ps))
     = map (fun dev => mkPageJob u dev d) (devices d)
       ++ expandPageJobs (mkConfig d ps).
Proof.
  rewrite !expandPageJobs_flat_map. cbn [pages flat_map].
  unfold jobsOfPage, resolved. cbn [fst snd default _default]. unfold id.
  rewrite !mergeConfig_empty. split; reflexivity.
Qed.

End ExpanderMore.

(** ** Slugs, the timestamp and the scroll loop *)

Section Slugs.

Lemma allChars_append (P : ascii -> bool) (a b : string) :
  allChars P (a +:+ b) = allChars P a && allChars P b.
Proof.
  induction a as [|c a IH]; [reflexivity|].
  change (String c a +:+ b) with (String c (a +:+ b)).
  cbn [allChars]. now rewrite IH, andb_assoc.
Qed.

Lemma slugChar_lower (c : ascii) : isSlugChar c = true -> lowerAscii c = c.
Proof.
  unfold isSlugChar, lowerAscii. intros H.
  destruct (Nat.leb_spec 65 (nat_of_ascii c)),
           (Nat.leb_spec (nat_of_ascii c) 90); cbn [andb]; try reflexivity.
  exfalso.
  destruct (Nat.leb_spec 97 (nat_of_ascii c)),
           (Nat.leb_spec (nat_of_ascii c) 122),
           (Nat.leb_spec 48 (nat_of_ascii c)),
           (Nat.leb_spec (nat_of_ascii c) 57);
    cbn in H; try discriminate; lia.
Qed.

Lemma slugSafe_cases (c : ascii) :
  slugSafe c = true -> isSlugChar c = true \/ (isSlugChar c = false /\ c = "-"%char).
Proof.
  unfold slugSafe. destruct (isSlugChar c); [now left|].
  cbn [orb]. intros H. apply Ascii.eqb_eq in H. now right.
Qed.

(** What [replaceRuns] returns is made of slug characters and dashes, has no
    two dashes in a row, and does not start with a dash when the previous
    character was already replaced. *)
Lemma replaceRuns_shape (s : string) :
  forall inRun,
    allChars slugSafe (replaceRuns inRun s) = true
    /\ noDoubleDash (replaceRuns inRun s) = true
    /\ (inRun = true ->
        match replaceRuns inRun s with
        | String "-"%char _ => False
        | _ => True
        end).
Proof.
  induction s as [|c s IH]; intros inRun; cbn [replaceRuns].
  - repeat split; auto.
  - destruct (isSlugChar c) eqn:Hc.
    + destruct (IH false) as (Ha & Hd & _).
      cbn [allChars]. unfold slugSafe at 1. rewrite Hc, Ha.
      repeat split; auto.
      * cbn [noDoubleDash].
        destruct c as [[] [] [] [] [] [] [] []]; try exact Hd;
          destruct (replaceRuns false s) as [|[[] [] [] [] [] [] [] []] ?];
          try exact Hd; discriminate.
      * intros _. destruct c as [[] [] [] [] [] [] [] []]; try exact I.
        discriminate.
    + destruct inRun.
      * destruct (IH true) as (Ha & Hd & Hs). repeat split; auto.
      * destruct (IH true) as (Ha & Hd & Hs). specialize (Hs eq_refl).
        cbn [allChars]. rewrite Ha.
        repeat split; auto; [|discriminate].
        cbn [noDoubleDash].
        destruct (replaceRuns true s) as [|[[] [] [] [] [] [] [] []] ?];
          try exact Hd; contradiction.
Qed.

(** A string already in slug shape is left as it is. *)
Lemma replaceRuns_fixed (s : string) :
  forall inRun,
    allChars slugSafe s = true ->
    noDoubleDash s = true ->
    (inRun = true -> match s with String "-"%char _ => False | _ => True end) ->
    replaceRuns inRun s = s.
Proof.
  induction s as [|c s IH]; intros inRun Ha Hd Hs; [reflexivity|].
  cbn [allChars] in Ha. apply andb_prop in Ha as [Hc Ha].
  cbn [replaceRuns].
  destruct (slugSafe_cases c Hc) as [Hslug|[Hslug ->]]; rewrite Hslug.
  - f_equal. apply IH; [assumption| |discriminate].
    destruct c as [[] [] [] [] [] [] [] []]; try exact Hd;
      destruct s as [|[[] [] [] [] [] [] [] []] ?]; try exact Hd; discriminate.
  - destruct inRun; [now specialize (Hs eq_refl)|].
    f_equal. apply IH; [assumption| |].
    + destruct s as [|[[] [] [] [] [] [] [] []] ?]; try exact Hd; discriminate.
    + intros _. destruct s as [|[[] [] [] [] [] [] [] []] ?]; try exact I.
      discriminate.
Qed.

Lemma toLowerCase_fixed (s : string) :
  allChars slugSafe s = true -> toLowerCase s = s.
Proof.
  induction s as [|c s IH]; [reflexivity|].
  cbn [allChars toLowerCase]. intros Ha. apply andb_prop in Ha as [Hc Ha].
  rewrite IH by assumption. f_equal.
  destruct (slugSafe_cases c Hc) as [Hslug|[_ ->]];
    [now apply slugChar_lower|reflexivity].
Qed.

(** X16: a device slug is made of lower-case letters, digits and dashes
    only, never has two dashes in a row, and slugging a slug changes
    nothing. *)
Theorem deviceToSlug_shape (device : DeviceName) :
  allChars slugSafe (deviceToSlug device) = true
  /\ noDoubleDash (deviceToSlug device) = true
  /\ deviceToSlug (deviceToSlug device) = deviceToSlug device.
Proof.
  unfold deviceToSlug.
  destruct (replaceRuns_shape (toLowerCase device) false) as (Ha & Hd & _).
  repeat split; [exact Ha|exact Hd|].
  rewrite (toLowerCase_fixed _ Ha).
  apply replaceRuns_fixed; [exact Ha|exact Hd|discriminate].
Qed.

End Slugs.

Section UrlSlug.

Lemma replaceChar_keeps_no_slash (c : ascii) (s : string) :
  allChars (fun x => negb (Ascii.eqb x "/"%char)) s = true ->
  allChars (fun x => negb (Ascii.eqb x "/"%char)) (replaceChar c s) = true.
Proof.
  induction s as [|x s IH]; [reflexivity|].
  cbn [allChars replaceChar]. intros H. apply andb_prop in H as [Hx Hs].
  rewrite (IH Hs), andb_true_r. now destruct (Ascii.eqb x c).
Qed.

Lemma replaceChar_slash (s : string) :
  allChars (fun x => negb (Ascii.eqb x "/"%char)) (replaceChar "/"%char s) = true.
Proof.
  induction s as [|x s IH]; [reflexivity|].
  cbn [allChars replaceChar]. rewrite IH, andb_true_r.
  destruct (Ascii.eqb x "/"%char) eqn:E; [reflexivity|now rewrite E].
Qed.

Lemma fallbackSlug_no_slash (s : string) :
  allChars (fun x => negb (Ascii.eqb x "/"%char)) (fallbackSlug s) = true.
Proof.
  induction s as [|x s IH]; [reflexivity|].
  cbn [allChars fallbackSlug]. rewrite IH, andb_true_r.
  destruct (isAlnum x) eqn:E; [|reflexivity].
  destruct (Ascii.eqb x "/"%char) eqn:E'; [|reflexivity].
  apply Ascii.eqb_eq in E'. subst x. discriminate.
Qed.

(** X17: a URL slug never contains a slash, so the file it names lies
    directly in the output directory: this holds for the fallback of a URL
    that does not parse, and for a parsed URL whenever its hostname has no
    slash. *)
Theorem urlToSlug_no_slash (parse : string -> option (string * string))
    (url : string) :
  (forall hostname pathname,
      parse url = Some (hostname, pathname) ->
      allChars (fun x => negb (Ascii.eqb x "/"%char)) hostname = true) ->
  allChars (fun x => negb (Ascii.eqb x "/"%char)) (urlToSlugWith parse url)
  = true.
Proof.
  intros Hhost. unfold urlToSlugWith.
  destruct (parse url) as [[hostname pathname]|];
    [|apply fallbackSlug_no_slash].
  specialize (Hhost hostname pathname eq_refl).
  unfold slugOfParts. rewrite !allChars_append.
  rewrite (replaceChar_keeps_no_slash _ _ Hhost). cbn [andb].
  destruct (_ || _); [reflexivity|].
  rewrite replaceChar_slash. reflexivity.
Qed.

Lemma stripTrailing_added (q : string) : stripTrailing (q +:+ "/") = q.
Proof.
  induction q as [|c q IH]; [reflexivity|].
  change (String c q +:+ "/") with (String c (q +:+ "/")).
  cbn [stripTrailing]. rewrite IH.
  destruct q; reflexivity.
Qed.

(** X18: a trailing slash makes no difference to the slug: the paths [/q]
    and [/q/], for a non-empty [q] that does not itself end with a slash,
    give the same slug, hence the same file name. *)
Theorem trailing_slash_same_slug (hostname q : string) :
  q <> EmptyString ->
  stripTrailing q = q ->
  slugOfParts hostname ("/" +:+ q +:+ "/") = slugOfParts hostname ("/" +:+ q).
Proof.
  intros Hq Hend. unfold slugOfParts.
  destruct q as [|c q]; [congruence|].
  change ("/" +:+ String c q +:+ "/") with (String "/"%char (String c (q +:+ "/"))).
  change ("/" +:+ String c q) with (String "/"%char (String c q)).
  cbn [String.eqb Ascii.eqb Bool.eqb orb stripLeading].
  change (String c (q +:+ "/")) with (String c q +:+ "/").
  now rewrite stripTrailing_added, Hend.
Qed.

End UrlSlug.

Section Timestamp.

Lemma length_append (a b : string) :
  String.length (a +:+ b) = (String.length a + String.length b)%nat.
Proof.
  induction a as [|c a IH]; [reflexivity|].
  change (String c a +:+ b) with (String c (a +:+ b)). cbn. now rewrite IH.
Qed.

Lemma append_inj_prefix (a a' b b' : string) :
  String.length a = String.length a' ->
  a +:+ b = a' +:+ b' -> a = a' /\ b = b'.
Proof.
  revert a'. induction a as [|c a IH]; intros [|c' a']; try discriminate.
  - intros _ H. now split.
  - intros Hlen.
    change (String c a +:+ b) with (String c (a +:+ b)).
    change (String c' a' +:+ b') with (String c' (a' +:+ b')).
    intros [= -> H]. destruct (IH a' ltac:(cbn in Hlen; lia) H) as [-> ->].
    now split.
Qed.

Lemma in_range (n : Z) : 0 <= n < 100 -> In n (seqZ 0 100).
Proof. intros Hn. apply list_elem_of_In, elem_of_seqZ. lia. Qed.

Lemma padStart2_width (n : Z) :
  0 <= n < 100 -> String.length (padStart2 (showInt n)) = 2%nat.
Proof.
  intros Hn.
  assert (Hall : forallb (fun n => Nat.eqb (String.length (padStart2 (showInt n))) 2)
                         (seqZ 0 100) = true) by (vm_compute; reflexivity).
  rewrite forallb_forall in Hall.
  now apply Nat.eqb_eq, Hall, in_range.
Qed.

Lemma padStart2_inj (a b : Z) :
  0 <= a < 100 -> 0 <= b < 100 ->
  padStart2 (showInt a) = padStart2 (showInt b) -> a = b.
Proof.
  intros Ha Hb Heq.
  assert (Hall : forallb
                   (fun a => forallb
                               (fun b => implb (String.eqb (padStart2 (showInt a))
                                                           (padStart2 (showInt b)))
                                               (a =? b))
                               (seqZ 0 100))
                   (seqZ 0 100) = true) by (vm_compute; reflexivity).
  rewrite forallb_forall in Hall. specialize (Hall a (in_range a Ha)).
  rewrite forallb_forall in Hall. specialize (Hall b (in_range b Hb)).
  apply String.eqb_eq in Heq. rewrite Heq in Hall. cbn in Hall.
  now apply Z.eqb_eq.
Qed.

(** X19: for a date whose fields are in range, the folder name is the year
    followed by eleven characters, and two dates give the same folder name
    only when year, month, day, hour and minute are all the same. *)
Theorem timestamp_names_the_minute (y mo d h mi y' mo' d' h' mi' : Z) :
  0 <= mo < 12 -> 1 <= d <= 31 -> 0 <= h < 24 -> 0 <= mi < 60 ->
  0 <= mo' < 12 -> 1 <= d' <= 31 -> 0 <= h' < 24 -> 0 <= mi' < 60 ->
  String.length (generateTimestampOf y mo d h mi)
  = (String.length (showInt y) + 11)%nat
  /\ (generateTimestampOf y mo d h mi = generateTimestampOf y' mo' d' h' mi' ->
      y = y' /\ mo = mo' /\ d = d' /\ h = h' /\ mi = mi').
Proof.
  intros Hmo Hd Hh Hmi Hmo' Hd' Hh' Hmi'.
  assert (Hlen : forall y mo d h mi,
             0 <= mo < 12 -> 1 <= d <= 31 -> 0 <= h < 24 -> 0 <= mi < 60 ->
             String.length (generateTimestampOf y mo d h mi)
             = (String.length (showInt y) + 11)%nat).
  { intros. unfold generateTimestampOf. rewrite !length_append.
    rewrite !padStart2_width by lia. cbn. lia. }
  split; [now apply Hlen|].
  intros Heq.
  pose proof (f_equal String.length Heq) as Hl.
  rewrite !Hlen in Hl by assumption.
  unfold generateTimestampOf in Heq.
  apply append_inj_prefix in Heq as [Hy Heq]; [|lia].
  apply (inj pretty) in Hy.
  apply append_inj_prefix in Heq as [_ Heq]; [|reflexivity].
  apply append_inj_prefix in Heq as [Hm Heq];
    [|now rewrite !padStart2_width by lia].
  apply append_inj_prefix in Heq as [_ Heq]; [|reflexivity].
  apply append_inj_prefix in Heq as [Hday Heq];
    [|now rewrite !padStart2_width by lia].
  apply append_inj_prefix in Heq as [_ Heq]; [|reflexivity].
  apply append_inj_prefix in Heq as [Hhour Hmin];
    [|now rewrite !padStart2_width by lia].
  apply padStart2_inj in Hm, Hday, Hhour, Hmin; try lia.
Qed.

End Timestamp.

Section ScrollLoop.

Lemma scrollTicks_fixed_from (h : Z) (n : nat) :
  (1 <= n)%nat ->
  h <= 100 * Z.of_nat n ->
  100 * (Z.of_nat n - 1) < h \/ n = 1%nat ->
  forall (fuel t : nat),
    (t < n)%nat -> (n - t <= fuel)%nat ->
    scrollTicks fuel (fun _ => h) t (100 * Z.of_nat t)
    = Some (n, 100 * Z.of_nat n).
Proof.
  intros Hn Hup Hlow. induction fuel as [|fuel IH]; intros t Ht Hfuel; [lia|].
  cbn [scrollTicks].
  destruct (Z.leb_spec h (100 * Z.of_nat t + 100)) as [Hstop|Hgo].
  - assert (t = (n - 1)%nat) as -> by (destruct Hlow; lia).
    do 2 f_equal; lia.
  - assert (S t < n)%nat by lia.
    replace (100 * Z.of_nat t + 100) with (100 * Z.of_nat (S t)) by lia.
    apply IH; lia.
Qed.

(** X20: on a page whose height stays at [h], the scroll loop resolves
    after [max 1 (ceil (h / 100))] ticks, having scrolled 100 per tick;
    on a page that at every tick is taller than the distance scrolled so
    far, it never resolves, however many ticks it is given. *)
Theorem scroll_loop_ends_iff_page_stops_growing :
  (forall (h : Z) (fuel : nat),
      (Z.to_nat (Z.max 1 (ceilDiv h 100)) <= fuel)%nat ->
      scrollTicks fuel (fun _ => h) 0 0
      = Some (Z.to_nat (Z.max 1 (ceilDiv h 100)),
              100 * Z.max 1 (ceilDiv h 100)))
  /\ (forall (heights : nat -> Z) (fuel : nat),
         (forall k, 100 * (Z.of_nat k + 1) < heights k) ->
         scrollTicks fuel heights 0 0 = None).
Proof.
  split.
  - intros h fuel Hfuel.
    pose proof (ceilDiv_bounds h 100 ltac:(lia)) as Hc.
    set (n := Z.to_nat (Z.max 1 (ceilDiv h 100))) in *.
    assert (Hn : Z.of_nat n = Z.max 1 (ceilDiv h 100)) by (subst n; lia).
    rewrite <- Hn.
    apply (scrollTicks_fixed_from h n); try lia.
  - intros heights fuel Hgrow.
    assert (Hgen : forall fuel t,
               scrollTicks fuel heights t (100 * Z.of_nat t) = None).
    { clear fuel. induction fuel as [|fuel IH]; intros t; [reflexivity|].
      cbn [scrollTicks]. specialize (Hgrow t).
      destruct (Z.leb_spec (heights t) (100 * Z.of_nat t + 100)); [lia|].
      replace (100 * Z.of_nat t + 100) with (100 * Z.of_nat (S t)) by lia.
      apply IH. }
    apply (Hgen fuel 0%nat).
Qed.

End ScrollLoop.

(** ** The further theorems at the sample inputs *)

Section MoreWitnesses.

Lemma required_selectors_report_witness :
  l_errors (fst (requiredLoop findingsEnv ["header"; "form"] initialLocals))
  = ["Missing selector: form"].
Proof.
  destruct (required_selectors_report findingsEnv ["header"; "form"]
              initialLocals) as [(_ & Herr & _) _].
  - repeat constructor.
  - exact Herr.
Defined.

Lemma network_observer_ignores_witness :
  onNetworkFailures [] (Response 500 "https://example.com/recaptcha/api.js")
  = [].
Proof.
  assert (Hin : In "recaptcha" ignorePatterns)
    by (unfold ignorePatterns; do 10 right; now left).
  exact (proj1 (network_observer_ignores [] "recaptcha" "https://example.com/"
                  "/api.js" 500 Hin)).
Defined.

Lemma console_observer_ignores_witness :
  onConsoleErrors [] (Console "error" "Refused to load: CSP directive") = [].
Proof.
  assert (Hin : In "CSP" genericErrorPatterns)
    by (unfold genericErrorPatterns; do 3 right; now left).
  exact (proj1 (console_observer_ignores [] "CSP" "Refused to load: "
                  " directive" "error" Hin)).
Defined.


Lemma pass_means_loaded_and_captured_witness :
  success (checkPage (quietEnv (Some 200) 800) "https://example.com/"
                     "desktop" sampleConfig "output") = true
  /\ screenshot (checkPage (quietEnv (Some 200) 800) "https://example.com/"
                           "desktop" sampleConfig "output") <> None.
Proof.
  split; [reflexivity|].
  apply (pass_means_loaded_and_captured (quietEnv (Some 200) 800)
           "https://example.com/" "desktop" sampleConfig "output");
    [reflexivity|cbn; lia].
Defined.

Lemma findings_do_not_stop_capture_witness :
  errors (checkPage findingsEnv "https://example.com/" "Pixel 99"
                    findingsConfig "output")
  = ["Console errors: Uncaught TypeError: x is undefined";
     "Network failures: 404 https://example.com/app.js";
     "Missing selector: form"]
  /\ screenshot (checkPage findingsEnv "https://example.com/" "Pixel 99"
                           findingsConfig "output") <> None.
Proof.
  assert (Hquery : Forall (fun s => isThrow (queryR findingsEnv s) = false)
                          (requiredSelectors findingsConfig))
    by (repeat constructor).
  assert (Hlimit : positiveLimit findingsConfig) by (cbn; lia).
  destruct (findings_do_not_stop_capture findingsEnv "https://example.com/"
              "Pixel 99" findingsConfig "output"
              eq_refl eq_refl eq_refl eq_refl eq_refl Hquery eq_refl
              (fun _ => eq_refl) eq_refl (fun _ => eq_refl) Hlimit)
    as (Herr & _ & Hshot & _).
  split; [exact Herr|exact Hshot].
Defined.

Lemma negative_limit_captures_nothing_witness :
  l_screenshot
    (fst (takeScreenshots (quietEnv (Some 200) 800) "https://example.com/"
            "desktop" negativeLimitConfig "output" initialLocals))
  = None.
Proof.
  apply (negative_limit_captures_nothing (quietEnv (Some 200) 800)
           "https://example.com/" "desktop" negativeLimitConfig "output"
           initialLocals (-1) 800);
    try reflexivity; lia.
Defined.

Lemma schedule_results_prefix_witness :
  exists st,
    schedule sixEnvs "output" WORKER_CONCURRENCY sixJobs = Some st
    /\ results st = throughFirstCritical (allRuns sixEnvs "output" sixJobs)
    /\ aborted st = anyCritical (allRuns sixEnvs "output" sixJobs).
Proof.
  apply (schedule_results_prefix sixEnvs "output" WORKER_CONCURRENCY sixJobs).
  unfold WORKER_CONCURRENCY. lia.
Defined.

Lemma no_critical_runs_every_job_witness :
  exists st,
    schedule sixEnvs "output" 1 (firstn 2 sixJobs) = Some st
    /\ results st = imap (runJob sixEnvs "output") (firstn 2 sixJobs)
    /\ launched st = firstn 2 sixJobs
    /\ aborted st = false.
Proof.
  apply (no_critical_runs_every_job sixEnvs "output" 1 (firstn 2 sixJobs));
    [lia|reflexivity].
Defined.

Lemma launched_prefix_bound_witness :
  exists st n,
    schedule sixEnvs "output" WORKER_CONCURRENCY sixJobs = Some st
    /\ launched st = firstn n sixJobs
    /\ (length (results st) <= length (launched st))%nat
    /\ (length (launched st) < length (results st) + WORKER_CONCURRENCY)%nat.
Proof.
  apply (launched_prefix_bound sixEnvs "output" WORKER_CONCURRENCY sixJobs).
  unfold WORKER_CONCURRENCY. lia.
Defined.

Lemma aborted_run_exits_nonzero_witness :
  exists st report,
    main criticalPages notFoundEnvs "output" = Some (Finished st report)
    /\ aborted st = true
    /\ exitCode report = 1.
Proof.
  assert (Hrun : exists st report,
             main criticalPages notFoundEnvs "output" = Some (Finished st report)
             /\ aborted st = true).
  { remember (main criticalPages notFoundEnvs "output") as o eqn:Ho.
    vm_compute in Ho. subst o. eexists _, _. split; reflexivity. }
  destruct Hrun as (st & report & Hmain & Hab).
  exists st, report. split; [exact Hmain|]. split; [exact Hab|].
  exact (proj2 (aborted_run_exits_nonzero criticalPages notFoundEnvs "output"
                  st report Hmain Hab)).
Defined.

Lemma expanded_job_origin_witness :
  exists entry,
    In entry (pages twoDevicePages)
    /\ url (mkPageJob "https://example.com/" "mobile" findingsConfig) = fst entry
    /\ config (mkPageJob "https://example.com/" "mobile" findingsConfig)
       = mergeConfig (_default twoDevicePages)
                     (default emptyPartial (snd entry))
    /\ In (device (mkPageJob "https://example.com/" "mobile" findingsConfig))
          (devices (config (mkPageJob "https://example.com/" "mobile"
                                      findingsConfig))).
Proof.
  apply (expanded_job_origin twoDevicePages
           (mkPageJob "https://example.com/" "mobile" findingsConfig)).
  right. left. reflexivity.
Defined.

Lemma urlToSlug_no_slash_witness :
  allChars (fun x => negb (Ascii.eqb x "/"%char))
           (urlToSlugWith sampleParse "https://example.com/blog/") = true
  /\ urlToSlugWith sampleParse "https://example.com/blog/" = "example-com-blog".
Proof.
  split; [|reflexivity].
  apply (urlToSlug_no_slash sampleParse "https://example.com/blog/").
  intros hostname pathname Hparse. cbv in Hparse.
  injection Hparse as <- _. reflexivity.
Defined.

Lemma trailing_slash_same_slug_witness :
  slugOfParts "example.com" "/blog/post/" = slugOfParts "example.com" "/blog/post".
Proof.
  apply (trailing_slash_same_slug "example.com" "blog/post");
    [discriminate|reflexivity].
Defined.

Lemma timestamp_names_the_minute_witness :
  String.length (generateTimestampOf 2026 1 19 10 30) = 15%nat
  /\ generateTimestampOf 2026 1 19 10 30 = "2026-02-19-1030".
Proof.
  split; [|reflexivity].
  apply (timestamp_names_the_minute 2026 1 19 10 30 2026 1 19 10 30); lia.
Defined.

Lemma nothing_deleted_when_capture_throws_witness :
  unlinked
    (trace (fst (captureMultiPartScreenshots brokenCropEnv "example-com-home"
                   "desktop" 1000 "output" initialLocals)))
  = [].
Proof.
  apply (nothing_deleted_when_capture_throws brokenCropEnv "example-com-home"
           "desktop" 1000 "output" initialLocals
           (JsError "ENOSPC: no space left on device")).
  reflexivity.
Defined.

End MoreWitnesses.
